(** * LightPollution_FHE: the observation ledger contract

    A shallow embedding of the Solidity contract [LightPollution_FHE]
    (storage, events, the four state-changing entry points and the two
    getters) and the properties of its reveal protocol, identity
    assignment and region bookkeeping.

    Storage mappings are finite maps read with the Solidity default (all
    zero) at absent keys; [uint256] values are integers with the checked
    arithmetic of Solidity 0.8 written out.  A call runs in a small
    state-and-revert monad that keeps the working storage at the point
    where execution stopped; [transact] adds the EVM rule that a reverted
    call commits nothing. *)

From Stdlib Require Import ZArith Lia.
From Stdlib.Strings Require Import Byte.
From stdpp Require Import gmap strings list fin_maps.

Local Open Scope Z_scope.

(** ** Value types *)

(** [euint32] and [bytes32] are 32-byte handles; unset storage reads as 0. *)
Abbreviation euint32 := Z (only parsing).
Abbreviation bytes32 := Z (only parsing).
Abbreviation uint256 := Z (only parsing).
Abbreviation address := Z (only parsing).

(** The contract declares its plaintext fields as [float]; plaintext values
    are integers here, and the conversion [uint256(.)] of line 113 reduces
    modulo 2^256. *)
Abbreviation float := Z (only parsing).
Abbreviation bytes := (list Byte.byte) (only parsing).

Definition MAX_UINT256 : Z := 2 ^ 256 - 1.

(** Explicit narrowing conversion [uint32(x)]: truncation, never a revert. *)
Definition uint32 (x : Z) : Z := x mod 2 ^ 32.

Definition uint256_of_float (x : float) : uint256 := x mod 2 ^ 256.

Definition bytes32ToUint (b : bytes32) : uint256 := b.

(** ** Storage layout *)

Record EncryptedObservation := mkEncryptedObservation {
  observerId : uint256;
  encryptedBrightness : euint32;
  encryptedLatitude : euint32;
  encryptedLongitude : euint32;
  encryptedTimestamp : euint32;
  submissionTime : uint256
}.

Record DecryptedObservation := mkDecryptedObservation {
  brightness : float;
  latitude : float;
  longitude : float;
  timestamp : uint256;
  isRevealed : bool
}.

(** What a mapping returns at a key that was never written. *)
Definition zeroEncrypted : EncryptedObservation :=
  mkEncryptedObservation 0 0 0 0 0 0.

Definition zeroDecrypted : DecryptedObservation :=
  mkDecryptedObservation 0 0 0 0 false.

Inductive Event :=
| ObservationSubmitted (id submissionTime : uint256)
| DecryptionRequested (id : uint256)
| ObservationDecrypted (id : uint256)
| PollutionMapUpdated (regionId : uint256).

(** The contract storage, the log of emitted events (oldest first) and the
    requests handed to [FHE.requestDecryption] (request identity and the
    ciphertext handles sent, oldest first). *)
Record State := mkState {
  observationCount : uint256;
  encryptedObservations : gmap Z EncryptedObservation;
  decryptedObservations : gmap Z DecryptedObservation;
  encryptedRegionStats : gmap string Z;
  regionList : list string;
  requestToObservationId : gmap Z Z;
  events : list Event;
  decryptionRequests : list (Z * list Z)
}.

Definition initial : State :=
  mkState 0 ∅ ∅ ∅ [] ∅ [] [].

(** Reading a Solidity mapping: the stored value, or the zero value. *)
Definition mload {K} `{Countable K} {V} (zero : V) (m : gmap K V) (k : K) : V :=
  default zero (m !! k).

Definition encryptedAt (s : State) (id : Z) : EncryptedObservation :=
  mload zeroEncrypted (encryptedObservations s) id.

Definition decryptedAt (s : State) (id : Z) : DecryptedObservation :=
  mload zeroDecrypted (decryptedObservations s) id.

Definition regionStat (s : State) (regionCode : string) : euint32 :=
  mload 0 (encryptedRegionStats s) regionCode.

Definition observationOf (s : State) (requestId : Z) : uint256 :=
  mload 0 (requestToObservationId s) requestId.

(** *** Field writes *)

Definition set_observationCount (c : Z) (s : State) : State :=
  mkState c (encryptedObservations s) (decryptedObservations s)
          (encryptedRegionStats s) (regionList s) (requestToObservationId s)
          (events s) (decryptionRequests s).

Definition set_encryptedObservation (id : Z) (e : EncryptedObservation) (s : State) : State :=
  mkState (observationCount s) (<[id := e]> (encryptedObservations s))
          (decryptedObservations s) (encryptedRegionStats s) (regionList s)
          (requestToObservationId s) (events s) (decryptionRequests s).

Definition set_decryptedObservation (id : Z) (d : DecryptedObservation) (s : State) : State :=
  mkState (observationCount s) (encryptedObservations s)
          (<[id := d]> (decryptedObservations s)) (encryptedRegionStats s)
          (regionList s) (requestToObservationId s) (events s)
          (decryptionRequests s).

Definition set_regionStat (regionCode : string) (v : Z) (s : State) : State :=
  mkState (observationCount s) (encryptedObservations s)
          (decryptedObservations s) (<[regionCode := v]> (encryptedRegionStats s))
          (regionList s) (requestToObservationId s) (events s)
          (decryptionRequests s).

Definition push_region (regionCode : string) (s : State) : State :=
  mkState (observationCount s) (encryptedObservations s)
          (decryptedObservations s) (encryptedRegionStats s)
          (regionList s ++ [regionCode]) (requestToObservationId s) (events s)
          (decryptionRequests s).

Definition set_requestToObservationId (reqId id : Z) (s : State) : State :=
  mkState (observationCount s) (encryptedObservations s)
          (decryptedObservations s) (encryptedRegionStats s) (regionList s)
          (<[reqId := id]> (requestToObservationId s)) (events s)
          (decryptionRequests s).

Definition log_event (e : Event) (s : State) : State :=
  mkState (observationCount s) (encryptedObservations s)
          (decryptedObservations s) (encryptedRegionStats s) (regionList s)
          (requestToObservationId s) (events s ++ [e]) (decryptionRequests s).

Definition log_request (reqId : Z) (handles : list Z) (s : State) : State :=
  mkState (observationCount s) (encryptedObservations s)
          (decryptedObservations s) (encryptedRegionStats s) (regionList s)
          (requestToObservationId s) (events s)
          (decryptionRequests s ++ [(reqId, handles)]).

(** Writes through the storage pointer [dObs] of [decryptObservation]. *)
Definition with_brightness (v : Z) (d : DecryptedObservation) : DecryptedObservation :=
  mkDecryptedObservation v (latitude d) (longitude d) (timestamp d) (isRevealed d).

Definition with_latitude (v : Z) (d : DecryptedObservation) : DecryptedObservation :=
  mkDecryptedObservation (brightness d) v (longitude d) (timestamp d) (isRevealed d).

Definition with_longitude (v : Z) (d : DecryptedObservation) : DecryptedObservation :=
  mkDecryptedObservation (brightness d) (latitude d) v (timestamp d) (isRevealed d).

Definition with_timestamp (v : Z) (d : DecryptedObservation) : DecryptedObservation :=
  mkDecryptedObservation (brightness d) (latitude d) (longitude d) v (isRevealed d).

Definition with_isRevealed (v : bool) (d : DecryptedObservation) : DecryptedObservation :=
  mkDecryptedObservation (brightness d) (latitude d) (longitude d) (timestamp d) v.

Definition update_decrypted (id : Z) (f : DecryptedObservation -> DecryptedObservation)
    (s : State) : State :=
  set_decryptedObservation id (f (decryptedAt s id)) s.

(** ** Execution monad *)

Inductive revert_reason :=
| RequireFailed (msg : string)  (* require(cond, msg) failed *)
| Panic (code : Z)              (* 0x11 arithmetic overflow, 0x32 index out of range *)
| CheckSignaturesFailed         (* FHE.checkSignatures reverted *)
| AbiDecodeFailed.              (* abi.decode reverted *)

Inductive outcome (A : Type) :=
| Done (a : A)
| Revert (r : revert_reason).
Arguments Done {A} a.
Arguments Revert {A} r.

(** A call body: from the storage before, the working storage where
    execution stopped and how it stopped. *)
Definition EVM (A : Type) : Type := State -> State * outcome A.

Definition ret {A} (a : A) : EVM A := fun s => (s, Done a).

Definition bind {A B} (m : EVM A) (k : A -> EVM B) : EVM B :=
  fun s => match m s with
           | (s1, Done a) => k a s1
           | (s1, Revert r) => (s1, Revert r)
           end.

Notation "'let!' x ':=' m 'in' k" := (bind m (fun x => k))
  (at level 10, x name, m at level 100, k at level 200).
Notation "'run!' m 'in' k" := (bind m (fun _ => k))
  (at level 10, m at level 100, k at level 200).

Definition read {A} (f : State -> A) : EVM A := fun s => (s, Done (f s)).

Definition store (f : State -> State) : EVM unit := fun s => (f s, Done tt).

Definition revert {A} (r : revert_reason) : EVM A := fun s => (s, Revert r).

Definition require (cond : bool) (msg : string) : EVM unit :=
  if cond then ret tt else revert (RequireFailed msg).

Definition emit (e : Event) : EVM unit := store (log_event e).

(** Checked [uint256] addition of Solidity 0.8. *)
Definition checked_add (a b : Z) : EVM Z :=
  if a + b <=? MAX_UINT256 then ret (a + b) else revert (Panic 17).

(** [arr[i]] on a memory array. *)
Definition index (arr : list Z) (i : nat) : EVM Z :=
  match arr !! i with
  | Some v => ret v
  | None => revert (Panic 50)
  end.

(** The result of a transaction: a reverted call commits nothing. *)
Inductive receipt (A : Type) :=
| Committed (a : A) (s' : State)
| Reverted (r : revert_reason).
Arguments Committed {A} a s'.
Arguments Reverted {A} r.

Definition transact {A} (m : EVM A) (s : State) : receipt A :=
  match m s with
  | (s', Done a) => Committed a s'
  | (_, Revert r) => Reverted r
  end.

Definition post_state {A} (s : State) (r : receipt A) : State :=
  match r with
  | Committed _ s' => s'
  | Reverted _ => s
  end.

(** ** The FHE library and the ABI decoder

    Neither is part of the repository; the contract is modelled over any
    implementation of the operations it calls. *)
Record FHEVM := mkFHEVM {
  FHE_isInitialized : euint32 -> bool;
  FHE_asEuint32 : Z -> euint32;
  FHE_toBytes32 : euint32 -> bytes32;
  FHE_div : euint32 -> euint32 -> euint32;
  FHE_checkSignatures : Z -> bytes -> bytes -> bool;
  abi_decode_floats : bytes -> option (list float);
  keccak256 : string -> bytes32
}.

(** ** The contract *)

Section Contract.

Context (L : FHEVM).

(** [FHE.requestDecryption(ciphertexts, selector)]: the request is handed
    to the library, which answers with a request identity; [reqId] is that
    answer, an input of the call. *)
Definition FHE_requestDecryption (ciphertexts : list bytes32) (reqId : Z) : EVM Z :=
  run! store (log_request reqId ciphertexts) in
  ret reqId.

Definition checkSignatures (requestId : Z) (cleartexts proof : bytes) : EVM unit :=
  if FHE_checkSignatures L requestId cleartexts proof
  then ret tt else revert CheckSignaturesFailed.

Definition abi_decode (cleartexts : bytes) : EVM (list float) :=
  match abi_decode_floats L cleartexts with
  | Some results => ret results
  | None => revert AbiDecodeFailed
  end.

(** The modifier [onlyObserver]: its body is the placeholder [_;] alone. *)
Definition onlyObserver {A} (observerId : uint256) (body : EVM A) : EVM A := body.

Definition submitEncryptedObservation
    (encBrightness encLatitude encLongitude encTimestamp : euint32)
    (regionCode : string) (block_timestamp : uint256) : EVM unit :=
  let! c := read observationCount in
  let! c' := checked_add c 1 in
  run! store (set_observationCount c') in
  let! newId := read observationCount in
  run! store (set_encryptedObservation newId
                (mkEncryptedObservation newId encBrightness encLatitude
                   encLongitude encTimestamp block_timestamp)) in
  run! store (set_decryptedObservation newId
                (mkDecryptedObservation 0 0 0 0 false)) in
  let! stat := read (fun s => regionStat s regionCode) in
  run! (if negb (FHE_isInitialized L stat)
        then run! store (set_regionStat regionCode (FHE_asEuint32 L 0)) in
             store (push_region regionCode)
        else ret tt) in
  emit (ObservationSubmitted newId block_timestamp).

Definition requestObservationDecryption (observationId : uint256) (reqId : Z) : EVM unit :=
  let! oid := read (fun s => observerId (encryptedAt s observationId)) in
  onlyObserver oid (
    let! obs := read (fun s => encryptedAt s observationId) in
    let! d := read (fun s => decryptedAt s observationId) in
    run! require (negb (isRevealed d)) "Already decrypted" in
    let ciphertexts :=
      [ FHE_toBytes32 L (encryptedBrightness obs);
        FHE_toBytes32 L (encryptedLatitude obs);
        FHE_toBytes32 L (encryptedLongitude obs);
        FHE_toBytes32 L (encryptedTimestamp obs) ] in
    let! reqId := FHE_requestDecryption ciphertexts reqId in
    run! store (set_requestToObservationId reqId observationId) in
    emit (DecryptionRequested observationId)).

Definition decryptObservation (requestId : uint256) (cleartexts proof : bytes) : EVM unit :=
  let! observationId := read (fun s => observationOf s requestId) in
  run! require (negb (observationId =? 0)) "Invalid request" in
  let! dObs := read (fun s => decryptedAt s observationId) in
  run! require (negb (isRevealed dObs)) "Already decrypted" in
  run! checkSignatures requestId cleartexts proof in
  let! results := abi_decode cleartexts in
  let! r0 := index results 0 in
  run! store (update_decrypted observationId (with_brightness r0)) in
  let! r1 := index results 1 in
  run! store (update_decrypted observationId (with_latitude r1)) in
  let! r2 := index results 2 in
  run! store (update_decrypted observationId (with_longitude r2)) in
  let! r3 := index results 3 in
  run! store (update_decrypted observationId (with_timestamp (uint256_of_float r3))) in
  run! store (update_decrypted observationId (with_isRevealed true)) in
  emit (ObservationDecrypted observationId).

Definition calculateRegionalBrightness (regionCode : string) : EVM euint32 :=
  let! stat := read (fun s => regionStat s regionCode) in
  run! require (FHE_isInitialized L stat) "Region not found" in
  let! count := read observationCount in
  let regionalAvg := FHE_div L stat (FHE_asEuint32 L (uint32 count)) in
  run! emit (PollutionMapUpdated (bytes32ToUint (keccak256 L regionCode))) in
  ret regionalAvg.

(** The view [getDecryptedObservation] and the getter generated for the
    public mapping [encryptedObservations]. *)
Definition getDecryptedObservation (observationId : uint256) : EVM DecryptedObservation :=
  let! d := read (fun s => decryptedAt s observationId) in
  ret (mkDecryptedObservation (brightness d) (latitude d) (longitude d)
         (timestamp d) (isRevealed d)).

Definition getEncryptedObservation (observationId : uint256) : EVM EncryptedObservation :=
  read (fun s => encryptedAt s observationId).

End Contract.

(** ** Transactions and reachable states *)

(** The state-changing entry points.  [compareBrightness],
    [checkPollutionThreshold] and [aggregateObservations] are [pure], the
    two getters are views and [getRegionFromHash] is private and unused:
    none of them can change the storage. *)
Inductive Call :=
| SubmitEncryptedObservation
    (encBrightness encLatitude encLongitude encTimestamp : euint32)
    (regionCode : string) (block_timestamp : uint256)
| RequestObservationDecryption (observationId reqId : Z)
| DecryptObservation (requestId : Z) (cleartexts proof : bytes)
| CalculateRegionalBrightness (regionCode : string).

(** The entry point a call selects; the value [calculateRegionalBrightness]
    returns is handed to the caller and is no part of the storage. *)
Definition dispatch (L : FHEVM) (c : Call) : EVM unit :=
  match c with
  | SubmitEncryptedObservation eb ela elo ets regionCode now =>
      submitEncryptedObservation L eb ela elo ets regionCode now
  | RequestObservationDecryption observationId reqId =>
      requestObservationDecryption L observationId reqId
  | DecryptObservation requestId cleartexts proof =>
      decryptObservation L requestId cleartexts proof
  | CalculateRegionalBrightness regionCode =>
      run! calculateRegionalBrightness L regionCode in ret tt
  end.

Definition step (L : FHEVM) (s : State) (c : Call) : State :=
  post_state s (transact (dispatch L c) s).

Definition run (L : FHEVM) (s : State) (calls : list Call) : State :=
  fold_left (step L) calls s.

Definition reachable (L : FHEVM) (s : State) : Prop :=
  exists calls, s = run L initial calls.

(** A transaction as the chain delivers it: the caller and the call.  The
    contract never reads [msg.sender]. *)
Record Tx := mkTx { tx_from : address; tx_call : Call }.

Definition tx_receipt (L : FHEVM) (s : State) (tx : Tx) : receipt unit :=
  transact (dispatch L (tx_call tx)) s.

Definition apply_tx (L : FHEVM) (s : State) (tx : Tx) : State :=
  post_state s (tx_receipt L s tx).

Definition run_txs (L : FHEVM) (s : State) (txs : list Tx) : State :=
  fold_left (apply_tx L) txs s.

(** The arguments of one [submitEncryptedObservation] call. *)
Record Submission := mkSubmission {
  sub_brightness : euint32;
  sub_latitude : euint32;
  sub_longitude : euint32;
  sub_timestamp : euint32;
  sub_region : string;
  sub_now : uint256
}.

Definition submit_call (a : Submission) : Call :=
  SubmitEncryptedObservation (sub_brightness a) (sub_latitude a)
    (sub_longitude a) (sub_timestamp a) (sub_region a) (sub_now a).

(** The identities announced by [ObservationSubmitted], oldest first. *)
Definition submitted_id (e : Event) : option Z :=
  match e with
  | ObservationSubmitted id _ => Some id
  | _ => None
  end.

Definition submitted_ids (s : State) : list Z := omap submitted_id (events s).

(** ** The error kinds of the specification

    The contract reverts with message strings; each kind of the
    specification is matched with the message (or library failure) that
    plays its part.  [NotFound], [RequestAlreadyPending] and [Unauthorized]
    have no counterpart in the contract. *)
Inductive ErrorKind :=
| NotFound
| AlreadyRevealed
| RequestAlreadyPending
| UnknownRequest
| ProofVerificationFailed
| Unauthorized
| EmptyInput
| RegionNotFound.

Definition error_kind (r : revert_reason) : option ErrorKind :=
  match r with
  | RequireFailed msg =>
      if decide (msg = "Invalid request"%string) then Some UnknownRequest
      else if decide (msg = "Already decrypted"%string) then Some AlreadyRevealed
      else if decide (msg = "Region not found"%string) then Some RegionNotFound
      else if decide (msg = "No observations"%string) then Some EmptyInput
      else None
  | CheckSignaturesFailed => Some ProofVerificationFailed
  | Panic _ | AbiDecodeFailed => None
  end.

Definition fails_with {A} (r : receipt A) (k : ErrorKind) : Prop :=
  exists reason, r = Reverted reason /\ error_kind reason = Some k.

Definition succeeds {A} (r : receipt A) : Prop :=
  exists a s', r = Committed a s'.

(** ** Specification-side notions *)

(** Modelled after the specification's AccessControl: the original
    contributor of an observation is the caller of the submit transaction
    that assigned its identity. *)
Fixpoint contributor_of (L : FHEVM) (s : State) (txs : list Tx) (id : Z) : option address :=
  match txs with
  | [] => None
  | tx :: rest =>
      let s' := apply_tx L s tx in
      match tx_call tx with
      | SubmitEncryptedObservation _ _ _ _ _ _ =>
          if decide (observationCount s' = id /\ observationCount s <> id)
          then Some (tx_from tx)
          else contributor_of L s' rest id
      | _ => contributor_of L s' rest id
      end
  end.

(** Modelled after the specification's region invariant: the region codes
    of a sequence of submissions, each kept at its first occurrence. *)
Fixpoint first_occurrences (codes : list string) : list string :=
  match codes with
  | [] => []
  | c :: rest => c :: filter (fun x => x <> c) (first_occurrences rest)
  end.

(** ** A plaintext pass-through instance of the library

    Handles are the plaintext shifted by one (so that no handle is the
    unset handle 0), a proof is accepted when it is not empty, and a
    cleartext bundle decodes byte by byte. *)
Definition stubFHE : FHEVM :=
  mkFHEVM
    (fun h => negb (h =? 0))
    (fun v => v + 1)
    (fun h => h)
    (fun a b => (a - 1) `div` (b - 1) + 1)
    (fun _ _ proof => negb (bool_decide (proof = [])))
    (fun cleartexts => Some (map (fun b => Z.of_N (Byte.to_N b)) cleartexts))
    (fun code => Z.of_nat (String.length code)).

(** ** What each entry point commits *)

Section Outcomes.

Context (L : FHEVM).

(** Storage after a committed [submitEncryptedObservation]. *)
Definition submitted (s : State) (eb ela elo ets : euint32) (regionCode : string)
    (now : uint256) : State :=
  let newId := observationCount s + 1 in
  let s1 := set_observationCount newId s in
  let s2 := set_encryptedObservation newId
              (mkEncryptedObservation newId eb ela elo ets now) s1 in
  let s3 := set_decryptedObservation newId zeroDecrypted s2 in
  let s4 := if FHE_isInitialized L (regionStat s regionCode) then s3
            else push_region regionCode
                   (set_regionStat regionCode (FHE_asEuint32 L 0) s3) in
  log_event (ObservationSubmitted newId now) s4.

(** Storage after a committed [requestObservationDecryption]. *)
Definition handles_of (e : EncryptedObservation) : list bytes32 :=
  [ FHE_toBytes32 L (encryptedBrightness e);
    FHE_toBytes32 L (encryptedLatitude e);
    FHE_toBytes32 L (encryptedLongitude e);
    FHE_toBytes32 L (encryptedTimestamp e) ].

Definition requested (s : State) (observationId reqId : Z) : State :=
  log_event (DecryptionRequested observationId)
    (set_requestToObservationId reqId observationId
       (log_request reqId (handles_of (encryptedAt s observationId)) s)).

(** Storage after a committed [decryptObservation]: the five field writes
    in the order of the source, then the event. *)
Definition decrypted (s : State) (observationId r0 r1 r2 r3 : Z) : State :=
  log_event (ObservationDecrypted observationId)
    (update_decrypted observationId (with_isRevealed true)
       (update_decrypted observationId (with_timestamp (uint256_of_float r3))
          (update_decrypted observationId (with_longitude r2)
             (update_decrypted observationId (with_latitude r1)
                (update_decrypted observationId (with_brightness r0) s))))).

End Outcomes.

(** ** Sequences of submissions, regions and the ledger invariant *)

Definition stored_record (id : Z) (a : Submission) : EncryptedObservation :=
  mkEncryptedObservation id (sub_brightness a) (sub_latitude a)
    (sub_longitude a) (sub_timestamp a) (sub_now a).

Definition announce (c : Z) (i : nat) (a : Submission) : Event :=
  ObservationSubmitted (c + Z.of_nat i + 1) (sub_now a).

(** What one submission does to the registration list. *)
Definition register (acc : list string) (code : string) : list string :=
  if decide (code ∈ acc) then acc else acc ++ [code].

(** The registration list and the region table agree: the list has no
    duplicate, a listed code holds the encrypted zero and an unlisted code
    was never written. *)
Definition regions_consistent (L : FHEVM) (s : State) : Prop :=
  NoDup (regionList s)
  /\ forall code,
       (code ∈ regionList s ->
          encryptedRegionStats s !! code = Some (FHE_asEuint32 L 0))
       /\ (code ∉ regionList s -> encryptedRegionStats s !! code = None).

(** The ledger after a sequence of submit calls run from the initial state. *)
Definition after_submits (L : FHEVM) (subs : list Submission) : State :=
  run L initial (map submit_call subs).

(** Invariant of the reachable ledgers: the count is a [uint256], no
    encrypted record is stored outside the identities 1 .. count, and a
    decrypted record that is not revealed is all zero. *)
Definition ledger_wf (s : State) : Prop :=
  0 <= observationCount s <= MAX_UINT256
  /\ (forall id, id <= 0 \/ observationCount s < id ->
        encryptedObservations s !! id = None)
  /\ (forall id, isRevealed (decryptedAt s id) = false ->
        decryptedAt s id = zeroDecrypted).

(** ** Concrete ledgers used in the examples *)

Definition alice : address := 100.
Definition bob : address := 200.

Definition demo_submission : Submission :=
  mkSubmission 11 12 13 14 "EU-1" 1700000000.

Definition demo_cleartexts : bytes := [x05; x06; x07; x08].
Definition demo_proof : bytes := [x01].

(** One observation submitted by [alice]. *)
Definition demo_history : list Tx := [mkTx alice (submit_call demo_submission)].
Definition s_submitted : State := run_txs stubFHE initial demo_history.

(** ... with a reveal requested under request identity 77 ... *)
Definition s_pending : State :=
  step stubFHE s_submitted (RequestObservationDecryption 1 77).

(** ... and fulfilled. *)
Definition s_revealed : State :=
  step stubFHE s_pending (DecryptObservation 77 demo_cleartexts demo_proof).

(** A reveal requested and fulfilled for identity 1 before any submission. *)
Definition s_revealed_early : State :=
  run stubFHE initial
    [RequestObservationDecryption 1 77;
     DecryptObservation 77 demo_cleartexts demo_proof].

Definition demo_regions : list Submission :=
  [ mkSubmission 11 12 13 14 "EU-1" 1700000000;
    mkSubmission 21 22 23 24 "EU-1" 1700000060;
    mkSubmission 31 32 33 34 "AS-2" 1700000120 ].

(** ** The pure entry points and the region lookup *)

(** The homomorphic operations that only the [pure] functions call; an
    [ebool] is a 32-byte handle like an [euint32]. *)
Record FHEArith := mkFHEArith {
  FHE_add : euint32 -> euint32 -> euint32;
  FHE_gt : euint32 -> euint32 -> bytes32
}.

Section PureEntryPoints.

Context (L : FHEVM) (A : FHEArith).

Definition compareBrightness (brightness1 brightness2 : euint32) : EVM bytes32 :=
  ret (FHE_gt A brightness1 brightness2).

Definition checkPollutionThreshold (brightness threshold : euint32) : EVM bytes32 :=
  ret (FHE_gt A brightness threshold).

(** The loop of [getRegionFromHash], with [fuel] iterations left from index
    [i]; the counter stays below the array length, so its checked
    increment cannot overflow.  Leaving the loop reaches the final
    [revert]. *)
Fixpoint getRegionFromHash_loop (hash : uint256) (fuel i : nat) : EVM string :=
  match fuel with
  | O => revert (RequireFailed "Region not found")
  | S fuel' =>
      let! entry := read (fun s => regionList s !! i) in
      match entry with
      | Some code =>
          if bytes32ToUint (keccak256 L code) =? hash then ret code
          else getRegionFromHash_loop hash fuel' (S i)
      | None => revert (Panic 50)
      end
  end.

Definition getRegionFromHash (hash : uint256) : EVM string :=
  let! len := read (fun s => length (regionList s)) in
  getRegionFromHash_loop hash len 0.

(** The summation loop of [aggregateObservations]. *)
Fixpoint aggregate_loop (brightnessValues : list euint32) (fuel i : nat)
    (sum : euint32) : EVM euint32 :=
  match fuel with
  | O => ret sum
  | S fuel' =>
      let! v := index brightnessValues i in
      aggregate_loop brightnessValues fuel' (S i) (FHE_add A sum v)
  end.

Definition aggregateObservations (brightnessValues : list euint32) : EVM euint32 :=
  run! require (0 <? Z.of_nat (length brightnessValues)) "No observations" in
  let! sum := aggregate_loop brightnessValues (length brightnessValues) 0
                (FHE_asEuint32 L 0) in
  ret (FHE_div L sum
         (FHE_asEuint32 L (uint32 (Z.of_nat (length brightnessValues))))).

End PureEntryPoints.

(** The number of [ObservationDecrypted] events a log holds for an
    identity. *)
Fixpoint decryptions_of (id : Z) (log : list Event) : nat :=
  match log with
  | [] => O
  | ObservationDecrypted id' :: rest =>
      if decide (id' = id) then S (decryptions_of id rest)
      else decryptions_of id rest
  | _ :: rest => decryptions_of id rest
  end.

(** Arithmetic of the pass-through instance: addition wraps at 32 bits,
    and a comparison yields the handle of 1 or of 0. *)
Definition stubArith : FHEArith :=
  mkFHEArith
    (fun a b => ((a - 1) + (b - 1)) mod 2 ^ 32 + 1)
    (fun a b => if b <? a then 2 else 1).

(** The plaintext behind a handle of the pass-through instance. *)
Definition stub_plain (h : euint32) : Z := h - 1.

(** Modelled after the specification's registerAndAccumulate: the sum a
    region would hold if every submission naming it had added its
    brightness, in submission order, onto the encrypted zero. *)
Definition accumulated_sum (L : FHEVM) (A : FHEArith) (subs : list Submission)
    (code : string) : euint32 :=
  fold_left (FHE_add A)
    (map sub_brightness (filter (fun a => sub_region a = code) subs))
    (FHE_asEuint32 L 0).

(** A call in which the library answers a reveal request with the request
    identity [reqId]. *)
Definition hands_out (reqId : Z) (c : Call) : Prop :=
  match c with
  | RequestObservationDecryption _ r => r = reqId
  | _ => False
  end.

(** ** The equations of the entry points *)

Section Equations.

Context (L : FHEVM).

Lemma transact_submit s eb ela elo ets regionCode now :
  transact (submitEncryptedObservation L eb ela elo ets regionCode now) s =
  if observationCount s + 1 <=? MAX_UINT256
  then Committed tt (submitted L s eb ela elo ets regionCode now)
  else Reverted (Panic 17).
Proof.
  unfold transact, submitEncryptedObservation, submitted, bind, read, store,
    checked_add, emit, ret, revert.
  destruct (observationCount s + 1 <=? MAX_UINT256); [|reflexivity].
  cbn. unfold regionStat at 1 2. cbn.
  destruct (FHE_isInitialized L _); reflexivity.
Qed.

Lemma transact_request s observationId reqId :
  transact (requestObservationDecryption L observationId reqId) s =
  if isRevealed (decryptedAt s observationId)
  then Reverted (RequireFailed "Already decrypted")
  else Committed tt (requested L s observationId reqId).
Proof.
  unfold transact, requestObservationDecryption, onlyObserver, requested,
    FHE_requestDecryption, require, bind, read, store, emit, ret, revert.
  destruct (isRevealed (decryptedAt s observationId)); reflexivity.
Qed.

Lemma run_decrypt s requestId cleartexts proof :
  decryptObservation L requestId cleartexts proof s =
  let observationId := observationOf s requestId in
  if observationId =? 0 then (s, Revert (RequireFailed "Invalid request"))
  else if isRevealed (decryptedAt s observationId)
  then (s, Revert (RequireFailed "Already decrypted"))
  else if negb (FHE_checkSignatures L requestId cleartexts proof)
  then (s, Revert CheckSignaturesFailed)
  else match abi_decode_floats L cleartexts with
       | None => (s, Revert AbiDecodeFailed)
       | Some [] => (s, Revert (Panic 50))
       | Some [r0] =>
           (update_decrypted observationId (with_brightness r0) s,
            Revert (Panic 50))
       | Some [r0; r1] =>
           (update_decrypted observationId (with_latitude r1)
              (update_decrypted observationId (with_brightness r0) s),
            Revert (Panic 50))
       | Some [r0; r1; r2] =>
           (update_decrypted observationId (with_longitude r2)
              (update_decrypted observationId (with_latitude r1)
                 (update_decrypted observationId (with_brightness r0) s)),
            Revert (Panic 50))
       | Some (r0 :: r1 :: r2 :: r3 :: _) =>
           (decrypted s observationId r0 r1 r2 r3, Done tt)
       end.
Proof.
  unfold decryptObservation, decrypted, checkSignatures, abi_decode, require,
    index, bind, read, store, emit, ret, revert.
  cbn zeta.
  destruct (observationOf s requestId =? 0); [reflexivity|]. cbn.
  destruct (isRevealed (decryptedAt s (observationOf s requestId))); [reflexivity|].
  cbn.
  destruct (FHE_checkSignatures L requestId cleartexts proof); [|reflexivity].
  cbn.
  destruct (abi_decode_floats L cleartexts) as [[|r0 [|r1 [|r2 [|r3 rest]]]]|];
    reflexivity.
Qed.

Lemma transact_decrypt s requestId cleartexts proof :
  transact (decryptObservation L requestId cleartexts proof) s =
  let observationId := observationOf s requestId in
  if observationId =? 0 then Reverted (RequireFailed "Invalid request")
  else if isRevealed (decryptedAt s observationId)
  then Reverted (RequireFailed "Already decrypted")
  else if negb (FHE_checkSignatures L requestId cleartexts proof)
  then Reverted CheckSignaturesFailed
  else match abi_decode_floats L cleartexts with
       | None => Reverted AbiDecodeFailed
       | Some (r0 :: r1 :: r2 :: r3 :: _) =>
           Committed tt (decrypted s observationId r0 r1 r2 r3)
       | Some _ => Reverted (Panic 50)
       end.
Proof.
  unfold transact. rewrite run_decrypt. cbn zeta.
  destruct (observationOf s requestId =? 0); [reflexivity|].
  destruct (isRevealed (decryptedAt s (observationOf s requestId))); [reflexivity|].
  destruct (negb (FHE_checkSignatures L requestId cleartexts proof)); [reflexivity|].
  destruct (abi_decode_floats L cleartexts) as [[|r0 [|r1 [|r2 [|r3 rest]]]]|];
    reflexivity.
Qed.

Lemma transact_regional s regionCode :
  transact (calculateRegionalBrightness L regionCode) s =
  if FHE_isInitialized L (regionStat s regionCode)
  then Committed
         (FHE_div L (regionStat s regionCode)
            (FHE_asEuint32 L (uint32 (observationCount s))))
         (log_event (PollutionMapUpdated (bytes32ToUint (keccak256 L regionCode))) s)
  else Reverted (RequireFailed "Region not found").
Proof.
  unfold transact, calculateRegionalBrightness, require, bind, read, store,
    emit, ret, revert.
  destruct (FHE_isInitialized L (regionStat s regionCode)); reflexivity.
Qed.

End Equations.

(** ** Reading the storage after a write *)

Lemma mload_insert {K} `{Countable K} {V} (zero : V) (m : gmap K V) (k k' : K) (v : V) :
  mload zero (<[k := v]> m) k' = if decide (k = k') then v else mload zero m k'.
Proof.
  unfold mload. rewrite lookup_insert. destruct (decide (k = k')); reflexivity.
Qed.

Lemma decryptedAt_update s id f id' :
  decryptedAt (update_decrypted id f s) id' =
  if decide (id = id') then f (decryptedAt s id) else decryptedAt s id'.
Proof. unfold update_decrypted, decryptedAt at 1. cbn. apply mload_insert. Qed.

Lemma decryptedAt_log_event s e id :
  decryptedAt (log_event e s) id = decryptedAt s id.
Proof. reflexivity. Qed.

Lemma decryptedAt_decrypted s observationId r0 r1 r2 r3 id :
  decryptedAt (decrypted s observationId r0 r1 r2 r3) id =
  if decide (observationId = id)
  then mkDecryptedObservation r0 r1 r2 (uint256_of_float r3) true
  else decryptedAt s id.
Proof.
  unfold decrypted. rewrite decryptedAt_log_event, !decryptedAt_update.
  destruct (decide (observationId = id)); [|reflexivity].
  destruct (decide (observationId = observationId)); [reflexivity | congruence].
Qed.

Lemma decryptedAt_requested L s observationId reqId id :
  decryptedAt (requested L s observationId reqId) id = decryptedAt s id.
Proof. reflexivity. Qed.

Lemma observationOf_requested L s observationId reqId r :
  observationOf (requested L s observationId reqId) r =
  if decide (reqId = r) then observationId else observationOf s r.
Proof. unfold requested, observationOf. cbn. apply mload_insert. Qed.

Lemma observationOf_decrypted s observationId r0 r1 r2 r3 r :
  observationOf (decrypted s observationId r0 r1 r2 r3) r = observationOf s r.
Proof. reflexivity. Qed.

Lemma decryptedAt_submitted L s eb ela elo ets regionCode now id :
  decryptedAt (submitted L s eb ela elo ets regionCode now) id =
  if decide (observationCount s + 1 = id) then zeroDecrypted else decryptedAt s id.
Proof.
  unfold submitted. cbn zeta.
  destruct (FHE_isInitialized L (regionStat s regionCode));
    unfold decryptedAt; cbn; apply mload_insert.
Qed.

Lemma encryptedAt_submitted L s eb ela elo ets regionCode now id :
  encryptedAt (submitted L s eb ela elo ets regionCode now) id =
  if decide (observationCount s + 1 = id)
  then mkEncryptedObservation (observationCount s + 1) eb ela elo ets now
  else encryptedAt s id.
Proof.
  unfold submitted. cbn zeta.
  destruct (FHE_isInitialized L (regionStat s regionCode));
    unfold encryptedAt; cbn; apply mload_insert.
Qed.

Lemma observationCount_submitted L s eb ela elo ets regionCode now :
  observationCount (submitted L s eb ela elo ets regionCode now) =
  observationCount s + 1.
Proof.
  unfold submitted. cbn zeta.
  destruct (FHE_isInitialized L (regionStat s regionCode)); reflexivity.
Qed.

Lemma events_submitted L s eb ela elo ets regionCode now :
  events (submitted L s eb ela elo ets regionCode now) =
  events s ++ [ObservationSubmitted (observationCount s + 1) now].
Proof.
  unfold submitted. cbn zeta.
  destruct (FHE_isInitialized L (regionStat s regionCode)); reflexivity.
Qed.

(** ** Receipts and error kinds *)

Lemma fails_with_Reverted {A} (r : revert_reason) (k : ErrorKind) :
  fails_with (@Reverted A r) k <-> error_kind r = Some k.
Proof.
  split.
  - intros (reason & Heq & Hk). injection Heq as <-. exact Hk.
  - intros Hk. exists r. split; [reflexivity | exact Hk].
Qed.

Lemma fails_with_Committed {A} (a : A) (s : State) (k : ErrorKind) :
  ~ fails_with (Committed a s) k.
Proof. intros (reason & Heq & _). discriminate Heq. Qed.

Lemma succeeds_not_fails {A} (r : receipt A) (k : ErrorKind) :
  succeeds r -> ~ fails_with r k.
Proof. intros (a & s' & ->). apply fails_with_Committed. Qed.

(** A committed [decryptObservation] passed the signature check. *)
Lemma decrypt_commit_verified L s requestId cleartexts proof s' :
  transact (decryptObservation L requestId cleartexts proof) s = Committed tt s' ->
  FHE_checkSignatures L requestId cleartexts proof = true
  /\ observationOf s requestId <> 0
  /\ isRevealed (decryptedAt s (observationOf s requestId)) = false
  /\ isRevealed (decryptedAt s' (observationOf s requestId)) = true
  /\ forall r, observationOf s' r = observationOf s r.
Proof.
  rewrite transact_decrypt. cbn zeta.
  destruct (observationOf s requestId =? 0) eqn:Hz; [discriminate|].
  destruct (isRevealed (decryptedAt s (observationOf s requestId))) eqn:Hr;
    [discriminate|].
  destruct (FHE_checkSignatures L requestId cleartexts proof); [|discriminate].
  cbn.
  destruct (abi_decode_floats L cleartexts) as [[|r0 [|r1 [|r2 [|r3 rest]]]]|];
    try discriminate.
  intros [= <-]. repeat split.
  - intros H0. rewrite H0 in Hz. discriminate.
  - rewrite decryptedAt_decrypted.
    destruct (decide _); [reflexivity | congruence].
Qed.

(** ** The reveal protocol *)

Lemma step_request L s observationId reqId :
  step L s (RequestObservationDecryption observationId reqId) =
  if isRevealed (decryptedAt s observationId) then s
  else requested L s observationId reqId.
Proof.
  unfold step, dispatch. rewrite transact_request.
  destruct (isRevealed (decryptedAt s observationId)); reflexivity.
Qed.

(** C1, as amended: a request identity with no stored correlation is
    rejected with the message of [UnknownRequest]; a request identity that
    a successful fulfill has just used is rejected too when it is
    presented again, but with the message of [AlreadyRevealed]: the
    correlation is never removed, it is the revealed flag that stops the
    replay. *)
Theorem fulfill_replay_rejected (L : FHEVM) (s : State) (requestId : Z)
    (cleartexts proof : bytes) :
  (observationOf s requestId = 0 ->
     fails_with (transact (decryptObservation L requestId cleartexts proof) s)
       UnknownRequest) /\
  (forall s', transact (decryptObservation L requestId cleartexts proof) s
                = Committed tt s' ->
     forall cleartexts' proof',
       transact (decryptObservation L requestId cleartexts' proof') s'
         = Reverted (RequireFailed "Already decrypted")
       /\ fails_with (transact (decryptObservation L requestId cleartexts' proof') s')
            AlreadyRevealed).
Proof.
  split.
  - intros Hz. rewrite transact_decrypt. cbn zeta. rewrite Hz. cbn.
    apply fails_with_Reverted. reflexivity.
  - intros s' Hc cleartexts' proof'.
    destruct (decrypt_commit_verified _ _ _ _ _ _ Hc) as (_ & Hnz & _ & Hrev & Hreq).
    assert (Heq : transact (decryptObservation L requestId cleartexts' proof') s'
                  = Reverted (RequireFailed "Already decrypted")).
    { rewrite transact_decrypt. cbn zeta. rewrite Hreq.
      destruct (observationOf s requestId =? 0) eqn:Hz.
      - apply Z.eqb_eq in Hz. contradiction.
      - rewrite Hrev. reflexivity. }
    split; [exact Heq|]. rewrite Heq. apply fails_with_Reverted. reflexivity.
Qed.

Lemma fulfill_replay_rejected_witness :
  (observationOf s_submitted 77 = 0 /\
   fails_with (transact (decryptObservation stubFHE 77 demo_cleartexts demo_proof)
                 s_submitted) UnknownRequest) /\
  (transact (decryptObservation stubFHE 77 demo_cleartexts demo_proof) s_pending
     = Committed tt s_revealed /\
   transact (decryptObservation stubFHE 77 demo_cleartexts demo_proof) s_revealed
     = Reverted (RequireFailed "Already decrypted")).
Proof.
  split.
  - split; [reflexivity|].
    apply (fulfill_replay_rejected stubFHE s_submitted 77 demo_cleartexts demo_proof).
    reflexivity.
  - assert (Hc : transact (decryptObservation stubFHE 77 demo_cleartexts demo_proof)
                   s_pending = Committed tt s_revealed) by (vm_compute; reflexivity).
    split; [exact Hc|].
    apply (fulfill_replay_rejected stubFHE s_pending 77 demo_cleartexts demo_proof).
    exact Hc.
Defined.

(** C1 fails as stated: the second fulfill with a consumed request
    identity is not rejected as [UnknownRequest]. *)
Lemma replay_is_not_unknown_request :
  transact (decryptObservation stubFHE 77 demo_cleartexts demo_proof) s_pending
    = Committed tt s_revealed
  /\ observationOf s_revealed 77 = 1
  /\ ~ fails_with
         (transact (decryptObservation stubFHE 77 demo_cleartexts demo_proof) s_revealed)
         UnknownRequest.
Proof.
  split; [vm_compute; reflexivity|]. split; [vm_compute; reflexivity|].
  assert (Heq : transact (decryptObservation stubFHE 77 demo_cleartexts demo_proof)
                  s_revealed = Reverted (RequireFailed "Already decrypted"))
    by (vm_compute; reflexivity).
  rewrite Heq. rewrite fails_with_Reverted. vm_compute. discriminate.
Qed.

(** C2, as amended: while a reveal request for an observation is pending,
    a further request for the same observation is accepted whenever the
    observation is not revealed.  It stores one more correlation, under
    the request identity the library returns, and leaves the correlations
    stored under every other request identity as they were; several
    pending correlations for one observation can therefore coexist. *)
Theorem second_request_accepted (L : FHEVM) (s : State)
    (observationId pendingId reqId : Z) :
  observationOf s pendingId = observationId ->
  isRevealed (decryptedAt s observationId) = false ->
  exists s',
    transact (requestObservationDecryption L observationId reqId) s = Committed tt s'
    /\ observationOf s' reqId = observationId
    /\ (forall r, r <> reqId -> observationOf s' r = observationOf s r)
    /\ (pendingId <> reqId -> observationOf s' pendingId = observationId).
Proof.
  intros Hpending Hfresh.
  exists (requested L s observationId reqId).
  rewrite transact_request, Hfresh. split; [reflexivity|].
  assert (Hother : forall r, r <> reqId ->
            observationOf (requested L s observationId reqId) r = observationOf s r).
  { intros r Hr. rewrite observationOf_requested.
    destruct (decide (reqId = r)); [congruence | reflexivity]. }
  split; [|split].
  - rewrite observationOf_requested.
    destruct (decide (reqId = reqId)); [reflexivity | congruence].
  - exact Hother.
  - intros Hne. rewrite Hother by exact Hne. exact Hpending.
Qed.

Lemma second_request_accepted_witness :
  observationOf s_pending 77 = 1
  /\ isRevealed (decryptedAt s_pending 1) = false
  /\ exists s',
       transact (requestObservationDecryption stubFHE 1 78) s_pending = Committed tt s'
       /\ observationOf s' 78 = 1
       /\ (forall r, r <> 78 -> observationOf s' r = observationOf s_pending r)
       /\ (77 <> 78 -> observationOf s' 77 = 1).
Proof.
  split; [reflexivity|]. split; [reflexivity|].
  apply (second_request_accepted stubFHE s_pending 1 77 78); reflexivity.
Defined.

(** C2 fails as stated: with request 77 pending for observation 1, a
    second request is committed, and afterwards two request identities are
    correlated with observation 1. *)
Lemma second_request_not_rejected :
  observationOf s_pending 77 = 1
  /\ isRevealed (decryptedAt s_pending 1) = false
  /\ succeeds (transact (requestObservationDecryption stubFHE 1 78) s_pending)
  /\ ~ fails_with (transact (requestObservationDecryption stubFHE 1 78) s_pending)
         RequestAlreadyPending
  /\ observationOf (step stubFHE s_pending (RequestObservationDecryption 1 78)) 77 = 1
  /\ observationOf (step stubFHE s_pending (RequestObservationDecryption 1 78)) 78 = 1.
Proof.
  assert (Hok : succeeds (transact (requestObservationDecryption stubFHE 1 78) s_pending)).
  { eexists; eexists. vm_compute. reflexivity. }
  split; [reflexivity|]. split; [reflexivity|]. split; [exact Hok|].
  split; [apply succeeds_not_fails; exact Hok|].
  split; vm_compute; reflexivity.
Qed.

(** C3: whenever [decryptObservation] stops with the failure of
    [UnknownRequest], [AlreadyRevealed] or [ProofVerificationFailed], no
    write has been executed before the failing check (the working storage
    at the point of failure is the storage before the call), and the
    storage after the transaction, events and pending correlations
    included, is the storage before it. *)
Theorem fulfill_failure_writes_nothing (L : FHEVM) (s : State) (requestId : Z)
    (cleartexts proof : bytes) (s_stop : State) (reason : revert_reason) :
  decryptObservation L requestId cleartexts proof s = (s_stop, Revert reason) ->
  error_kind reason = Some UnknownRequest
  \/ error_kind reason = Some AlreadyRevealed
  \/ error_kind reason = Some ProofVerificationFailed ->
  s_stop = s
  /\ transact (decryptObservation L requestId cleartexts proof) s = Reverted reason
  /\ post_state s (transact (decryptObservation L requestId cleartexts proof) s) = s.
Proof.
  intros Hrun Hkind.
  assert (Htx : transact (decryptObservation L requestId cleartexts proof) s
                = Reverted reason) by (unfold transact; rewrite Hrun; reflexivity).
  rewrite Htx. split; [|split; reflexivity].
  rewrite run_decrypt in Hrun. cbn zeta in Hrun.
  destruct (observationOf s requestId =? 0); [congruence|].
  destruct (isRevealed (decryptedAt s (observationOf s requestId))); [congruence|].
  destruct (negb (FHE_checkSignatures L requestId cleartexts proof)); [congruence|].
  destruct (abi_decode_floats L cleartexts) as [[|r0 [|r1 [|r2 [|r3 rest]]]]|];
    try discriminate Hrun;
    injection Hrun as _ <-; cbn in Hkind;
    destruct Hkind as [Hk | [Hk | Hk]]; discriminate Hk.
Qed.

Lemma fulfill_failure_writes_nothing_witness :
  decryptObservation stubFHE 77 demo_cleartexts [] s_pending
    = (s_pending, Revert CheckSignaturesFailed)
  /\ s_pending = s_pending
  /\ transact (decryptObservation stubFHE 77 demo_cleartexts []) s_pending
       = Reverted CheckSignaturesFailed
  /\ post_state s_pending
       (transact (decryptObservation stubFHE 77 demo_cleartexts []) s_pending)
     = s_pending.
Proof.
  split; [vm_compute; reflexivity|].
  apply (fulfill_failure_writes_nothing stubFHE s_pending 77 demo_cleartexts []
           s_pending CheckSignaturesFailed).
  - vm_compute; reflexivity.
  - right; right; reflexivity.
Defined.

(** The order of checks and writes matters: a failure after the signature
    check (a cleartext bundle with fewer than four values) stops with a
    field already written in the working storage; only the rollback of the
    transaction undoes it. *)
Lemma fulfill_late_failure_has_written :
  exists s_stop,
    decryptObservation stubFHE 77 [x05; x06] demo_proof s_pending
      = (s_stop, Revert (Panic 50))
    /\ brightness (decryptedAt s_stop 1) = 5
    /\ brightness (decryptedAt s_pending 1) = 0.
Proof. eexists. split; [vm_compute; reflexivity|]. split; reflexivity. Qed.

(** C4, as amended: [requestObservationDecryption] performs no
    authorization check.  For every requester its outcome is the same: it
    never fails with [Unauthorized], it commits whenever the decrypted
    record of the observation is not revealed, and fails with
    [AlreadyRevealed] otherwise. *)
Theorem request_ignores_requester (L : FHEVM) (s : State)
    (requester observationId reqId : Z) :
  ~ fails_with (tx_receipt L s (mkTx requester
                  (RequestObservationDecryption observationId reqId))) Unauthorized
  /\ (isRevealed (decryptedAt s observationId) = false ->
      tx_receipt L s (mkTx requester (RequestObservationDecryption observationId reqId))
        = Committed tt (requested L s observationId reqId))
  /\ (isRevealed (decryptedAt s observationId) = true ->
      fails_with (tx_receipt L s (mkTx requester
                    (RequestObservationDecryption observationId reqId)))
        AlreadyRevealed).
Proof.
  unfold tx_receipt, dispatch. cbn [tx_call]. rewrite transact_request.
  destruct (isRevealed (decryptedAt s observationId)).
  - split; [|split].
    + rewrite fails_with_Reverted. cbn. discriminate.
    + discriminate.
    + intros _. apply fails_with_Reverted. reflexivity.
  - split; [|split].
    + apply fails_with_Committed.
    + reflexivity.
    + discriminate.
Qed.

Lemma request_ignores_requester_witness :
  isRevealed (decryptedAt s_submitted 1) = false
  /\ tx_receipt stubFHE s_submitted (mkTx bob (RequestObservationDecryption 1 77))
     = Committed tt (requested stubFHE s_submitted 1 77)
  /\ isRevealed (decryptedAt s_revealed 1) = true
  /\ fails_with (tx_receipt stubFHE s_revealed
                   (mkTx bob (RequestObservationDecryption 1 78))) AlreadyRevealed.
Proof.
  split; [reflexivity|].
  split; [apply (request_ignores_requester stubFHE s_submitted bob 1 77); reflexivity|].
  split; [reflexivity|].
  apply (request_ignores_requester stubFHE s_revealed bob 1 78). reflexivity.
Defined.

(** C4 fails as stated: observation 1 was contributed by [alice], and a
    reveal request sent by [bob] is committed. *)
Lemma request_by_stranger_accepted :
  contributor_of stubFHE initial demo_history 1 = Some alice
  /\ bob <> alice
  /\ succeeds (tx_receipt stubFHE (run_txs stubFHE initial demo_history)
                 (mkTx bob (RequestObservationDecryption 1 77)))
  /\ ~ fails_with (tx_receipt stubFHE (run_txs stubFHE initial demo_history)
                     (mkTx bob (RequestObservationDecryption 1 77))) Unauthorized.
Proof.
  assert (Hok : succeeds (tx_receipt stubFHE (run_txs stubFHE initial demo_history)
                            (mkTx bob (RequestObservationDecryption 1 77)))).
  { eexists; eexists. vm_compute. reflexivity. }
  split; [vm_compute; reflexivity|]. split; [discriminate|].
  split; [exact Hok | apply succeeds_not_fails; exact Hok].
Qed.

(** ** One step of the ledger *)

Lemma step_submit L s eb ela elo ets regionCode now :
  step L s (SubmitEncryptedObservation eb ela elo ets regionCode now) =
  if observationCount s + 1 <=? MAX_UINT256
  then submitted L s eb ela elo ets regionCode now
  else s.
Proof.
  unfold step, dispatch. rewrite transact_submit.
  destruct (observationCount s + 1 <=? MAX_UINT256); reflexivity.
Qed.

Lemma step_decrypt L s requestId cleartexts proof :
  step L s (DecryptObservation requestId cleartexts proof) = s
  \/ exists r0 r1 r2 r3,
       observationOf s requestId <> 0
       /\ step L s (DecryptObservation requestId cleartexts proof)
          = decrypted s (observationOf s requestId) r0 r1 r2 r3.
Proof.
  unfold step, dispatch. rewrite transact_decrypt. cbn zeta.
  destruct (observationOf s requestId =? 0) eqn:Hz; [left; reflexivity|].
  destruct (isRevealed (decryptedAt s (observationOf s requestId)));
    [left; reflexivity|].
  destruct (negb (FHE_checkSignatures L requestId cleartexts proof));
    [left; reflexivity|].
  destruct (abi_decode_floats L cleartexts) as [[|r0 [|r1 [|r2 [|r3 rest]]]]|];
    try (left; reflexivity).
  right. exists r0, r1, r2, r3. split; [|reflexivity].
  intros H0. rewrite H0 in Hz. discriminate.
Qed.

Lemma step_regional L s regionCode :
  step L s (CalculateRegionalBrightness regionCode) =
  if FHE_isInitialized L (regionStat s regionCode)
  then log_event (PollutionMapUpdated (bytes32ToUint (keccak256 L regionCode))) s
  else s.
Proof.
  unfold step, dispatch, transact, bind, ret.
  pose proof (transact_regional L s regionCode) as H. unfold transact in H.
  destruct (calculateRegionalBrightness L regionCode s) as [s1 [v|r]];
    destruct (FHE_isInitialized L (regionStat s regionCode));
    try discriminate H; [injection H as _ <-|]; reflexivity.
Qed.

Lemma run_snoc L s calls c :
  run L s (calls ++ [c]) = step L (run L s calls) c.
Proof. unfold run. rewrite fold_left_app. reflexivity. Qed.

Lemma run_app L s calls1 calls2 :
  run L s (calls1 ++ calls2) = run L (run L s calls1) calls2.
Proof. unfold run. apply fold_left_app. Qed.

Lemma run_cons L s c calls :
  run L s (c :: calls) = run L (step L s c) calls.
Proof. reflexivity. Qed.

Lemma reachable_initial L : reachable L initial.
Proof. exists []. reflexivity. Qed.

Lemma reachable_step L s c : reachable L s -> reachable L (step L s c).
Proof. intros [calls ->]. exists (calls ++ [c]). symmetry. apply run_snoc. Qed.

Lemma reachable_ind L (P : State -> Prop) :
  P initial ->
  (forall s c, reachable L s -> P s -> P (step L s c)) ->
  forall s, reachable L s -> P s.
Proof.
  intros Hinit Hstep s [calls ->].
  induction calls as [|c calls IH] using rev_ind.
  - exact Hinit.
  - rewrite run_snoc. apply Hstep; [exists calls; reflexivity | exact IH].
Qed.

(** The observation count never decreases. *)
Lemma step_count_mono L s c : observationCount s <= observationCount (step L s c).
Proof.
  destruct c as [eb ela elo ets regionCode now | observationId reqId
                | requestId cleartexts proof | regionCode].
  - rewrite step_submit. destruct (_ <=? _); [|lia].
    rewrite observationCount_submitted. lia.
  - rewrite step_request. destruct (isRevealed _); cbn; lia.
  - destruct (step_decrypt L s requestId cleartexts proof)
      as [-> | (r0 & r1 & r2 & r3 & _ & ->)]; cbn; lia.
  - rewrite step_regional. destruct (FHE_isInitialized _ _); cbn; lia.
Qed.

(** A step keeps the revealed flag of every identity other than the one
    the next submit will assign. *)
Lemma step_keeps_revealed L s c id :
  id <> observationCount s + 1 ->
  isRevealed (decryptedAt s id) = true ->
  isRevealed (decryptedAt (step L s c) id) = true.
Proof.
  intros Hid Hrev.
  destruct c as [eb ela elo ets regionCode now | observationId reqId
                | requestId cleartexts proof | regionCode].
  - rewrite step_submit. destruct (_ <=? _); [|exact Hrev].
    rewrite decryptedAt_submitted.
    destruct (decide (observationCount s + 1 = id)); [congruence | exact Hrev].
  - rewrite step_request. destruct (isRevealed (decryptedAt s observationId));
      [exact Hrev|]. rewrite decryptedAt_requested. exact Hrev.
  - destruct (step_decrypt L s requestId cleartexts proof)
      as [-> | (r0 & r1 & r2 & r3 & _ & ->)]; [exact Hrev|].
    rewrite decryptedAt_decrypted. destruct (decide _); [reflexivity | exact Hrev].
  - rewrite step_regional. destruct (FHE_isInitialized _ _); exact Hrev.
Qed.

(** C5, as amended: for every state and every observation identity that
    has been assigned (an identity not above the observation count), once
    the revealed flag of its decrypted record is true, no sequence of
    calls sets it back to false. *)
Theorem revealed_stays_revealed (L : FHEVM) (s : State) (calls : list Call) (id : Z) :
  id <= observationCount s ->
  isRevealed (decryptedAt s id) = true ->
  isRevealed (decryptedAt (run L s calls) id) = true.
Proof.
  revert s. induction calls as [|c calls IH]; intros s Hid Hrev; [exact Hrev|].
  rewrite run_cons. apply IH.
  - pose proof (step_count_mono L s c). lia.
  - apply step_keeps_revealed; [lia | exact Hrev].
Qed.

Lemma revealed_stays_revealed_witness :
  1 <= observationCount s_revealed
  /\ isRevealed (decryptedAt s_revealed 1) = true
  /\ isRevealed
       (decryptedAt
          (run stubFHE s_revealed
             [submit_call demo_submission; RequestObservationDecryption 1 78;
              DecryptObservation 77 demo_cleartexts demo_proof;
              CalculateRegionalBrightness "EU-1"]) 1) = true.
Proof.
  split; [vm_compute; discriminate|]. split; [reflexivity|].
  apply (revealed_stays_revealed stubFHE s_revealed); [vm_compute; discriminate | reflexivity].
Defined.

(** C5 fails as stated: in a reachable state the decrypted record of
    identity 1 is revealed, and the submit that assigns identity 1 sets
    the flag back to false. *)
Lemma submit_resets_revealed :
  reachable stubFHE s_revealed_early
  /\ observationCount s_revealed_early = 0
  /\ isRevealed (decryptedAt s_revealed_early 1) = true
  /\ isRevealed
       (decryptedAt (step stubFHE s_revealed_early (submit_call demo_submission)) 1)
     = false.
Proof.
  split; [eexists; reflexivity|]. repeat split; vm_compute; reflexivity.
Qed.

(** ** Sequences of submissions *)

Lemma step_submit_call L s a :
  observationCount s + 1 <= MAX_UINT256 ->
  step L s (submit_call a) =
  submitted L s (sub_brightness a) (sub_latitude a) (sub_longitude a)
    (sub_timestamp a) (sub_region a) (sub_now a).
Proof.
  intros Hle. unfold submit_call. rewrite step_submit.
  destruct (observationCount s + 1 <=? MAX_UINT256) eqn:Hb; [reflexivity|].
  apply Z.leb_gt in Hb. lia.
Qed.

Lemma step_submit_call_full L s a :
  observationCount s = MAX_UINT256 -> step L s (submit_call a) = s.
Proof.
  intros Hfull. unfold submit_call. rewrite step_submit.
  destruct (observationCount s + 1 <=? MAX_UINT256) eqn:Hb; [|reflexivity].
  apply Z.leb_le in Hb. lia.
Qed.

(** Once the counter is at its maximum every further submit reverts. *)
Lemma run_submits_full L s subs :
  observationCount s = MAX_UINT256 -> run L s (map submit_call subs) = s.
Proof.
  intros Hfull. induction subs as [|a subs IH]; [reflexivity|].
  cbn [map]. rewrite run_cons, step_submit_call_full by exact Hfull. exact IH.
Qed.

(** While the counter does not overflow every submit commits. *)
Lemma run_submits_ok L subs : forall s,
  observationCount s + Z.of_nat (length subs) <= MAX_UINT256 ->
  observationCount (run L s (map submit_call subs))
    = observationCount s + Z.of_nat (length subs)
  /\ events (run L s (map submit_call subs))
     = events s ++ imap (announce (observationCount s)) subs
  /\ (forall id, id <= observationCount s ->
        encryptedAt (run L s (map submit_call subs)) id = encryptedAt s id)
  /\ (forall i a, subs !! i = Some a ->
        encryptedAt (run L s (map submit_call subs))
          (observationCount s + Z.of_nat i + 1)
        = stored_record (observationCount s + Z.of_nat i + 1) a).
Proof.
  induction subs as [|a subs IH]; intros s Hle.
  - cbn. rewrite app_nil_r. repeat split; try lia. intros i a Hi. discriminate Hi.
  - cbn [map length] in *. rewrite run_cons, step_submit_call by lia.
    set (s1 := submitted L s _ _ _ _ _ _).
    assert (Hc1 : observationCount s1 = observationCount s + 1)
      by apply observationCount_submitted.
    assert (He1 : events s1 = events s ++ [announce (observationCount s) 0 a]).
    { unfold s1. rewrite events_submitted. unfold announce.
      repeat f_equal. lia. }
    assert (Hold : forall id, id <= observationCount s ->
              encryptedAt s1 id = encryptedAt s id).
    { intros id Hid. unfold s1. rewrite encryptedAt_submitted.
      destruct (decide _); [lia | reflexivity]. }
    destruct (IH s1) as (Hcount & Hev & Hkeep & Hrec); [lia|].
    split; [lia|]. split; [|split].
    + rewrite Hev, He1, <- app_assoc. cbn [app imap]. do 2 f_equal.
      apply imap_ext. intros i x _. unfold announce, compose. rewrite Hc1.
      f_equal. lia.
    + intros id Hid. rewrite Hkeep by lia. apply Hold. exact Hid.
    + intros [|i] x Hi.
      * cbn in Hi. injection Hi as ->. rewrite Hkeep by lia.
        unfold s1. rewrite encryptedAt_submitted.
        destruct (decide _) as [_|Hne]; [|lia].
        unfold stored_record. f_equal; lia.
      * cbn in Hi. specialize (Hrec i x Hi). rewrite Hc1 in Hrec.
        replace (observationCount s + Z.of_nat (S i) + 1)
          with (observationCount s + 1 + Z.of_nat i + 1) by lia.
        exact Hrec.
Qed.

Lemma submitted_ids_announce c subs :
  omap submitted_id (imap (announce c) subs)
  = map (fun i => c + Z.of_nat i) (seq 1 (length subs)).
Proof.
  revert c. induction subs as [|a subs IH]; intros c; [reflexivity|].
  cbn [length seq map imap].
  change (omap submitted_id (announce c 0 a :: imap (announce c ∘ S) subs))
    with (c + Z.of_nat 0 + 1 :: omap submitted_id (imap (announce c ∘ S) subs)).
  f_equal; [lia|].
  rewrite (imap_ext _ (announce (c + 1))), IH.
  - rewrite <- (fmap_S_seq 1). rewrite <- list_fmap_compose.
    apply list_fmap_ext. intros i x _. cbn. lia.
  - intros i x _. unfold announce, compose. f_equal. lia.
Qed.

(** The submits of a sequence that commit are its first [k], where [k] is
    the length of the sequence capped at the largest [uint256]. *)
Lemma run_submits_committed L subs :
  exists k : nat,
    Z.of_nat k = Z.min (Z.of_nat (length subs)) MAX_UINT256
    /\ run L initial (map submit_call subs)
       = run L initial (map submit_call (take k subs))
    /\ length (take k subs) = k.
Proof.
  destruct (Z.le_gt_cases (Z.of_nat (length subs)) MAX_UINT256) as [Hle | Hgt].
  - exists (length subs). rewrite firstn_all. repeat split. lia.
  - exists (Z.to_nat MAX_UINT256).
    assert (Hmax : 0 <= MAX_UINT256) by (unfold MAX_UINT256; lia).
    assert (Hk : Z.of_nat (Z.to_nat MAX_UINT256) = MAX_UINT256) by lia.
    assert (Hlen : length (take (Z.to_nat MAX_UINT256) subs) = Z.to_nat MAX_UINT256).
    { rewrite length_take. lia. }
    split; [lia|]. split; [|exact Hlen].
    rewrite <- (take_drop (Z.to_nat MAX_UINT256) subs) at 1.
    rewrite map_app, run_app. apply run_submits_full.
    destruct (run_submits_ok L (take (Z.to_nat MAX_UINT256) subs) initial)
      as (Hc & _); [rewrite Hlen; cbn; lia|].
    rewrite Hc, Hlen. cbn. lia.
Qed.

(** C6: run from the initial state, a sequence of submit calls commits its
    first [k] calls, [k] being the length of the sequence (capped at the
    largest [uint256], where the checked increment reverts).  The [i]-th
    of them (counting from 0) is announced and stored under identity
    [i + 1]: the identities are 1, 2, ..., [k] in submission order, with
    no gap, and no stored record is overwritten by a later submit. *)
Theorem submit_ids_sequential (L : FHEVM) (subs : list Submission) :
  exists k : nat,
    Z.of_nat k = Z.min (Z.of_nat (length subs)) MAX_UINT256
    /\ observationCount (after_submits L subs) = Z.of_nat k
    /\ submitted_ids (after_submits L subs)
       = map Z.of_nat (seq 1 k)
    /\ NoDup (submitted_ids (after_submits L subs))
    /\ forall (i : nat) (a : Submission),
         (i < k)%nat -> subs !! i = Some a ->
         events (after_submits L subs) !! i
           = Some (ObservationSubmitted (Z.of_nat i + 1) (sub_now a))
         /\ encryptedAt (after_submits L subs) (Z.of_nat i + 1)
            = stored_record (Z.of_nat i + 1) a.
Proof.
  unfold after_submits.
  destruct (run_submits_committed L subs) as (k & Hk & -> & Hlen).
  exists k. split; [exact Hk|].
  destruct (run_submits_ok L (take k subs) initial) as (Hc & Hev & _ & Hrec).
  { rewrite Hlen. cbn. lia. }
  rewrite Hlen in Hc. cbn in Hc, Hev, Hrec.
  assert (Hids : submitted_ids (run L initial (map submit_call (take k subs)))
                 = map Z.of_nat (seq 1 k)).
  { unfold submitted_ids. rewrite Hev, submitted_ids_announce, Hlen.
    apply list_fmap_ext. intros i x _. lia. }
  split; [exact Hc|]. split; [exact Hids|]. split.
  - rewrite Hids. apply NoDup_fmap_2; [intros x y; lia | apply NoDup_seq].
  - intros i a Hi Ha.
    assert (Ha' : take k subs !! i = Some a) by (rewrite lookup_take_lt; done).
    split.
    + rewrite Hev, list_lookup_imap, Ha'. cbn. unfold announce. do 2 f_equal.
    + exact (Hrec i a Ha').
Qed.

Example three_submissions_ids :
  submitted_ids (after_submits stubFHE demo_regions) = [1; 2; 3]
  /\ observerId (encryptedAt (after_submits stubFHE demo_regions) 3) = 3
  /\ encryptedBrightness (encryptedAt (after_submits stubFHE demo_regions) 3) = 31.
Proof. repeat split; vm_compute; reflexivity. Qed.

(** ** Region bookkeeping *)

Section Regions.

Context (L : FHEVM).
Hypothesis unset_not_initialized : FHE_isInitialized L 0 = false.
Hypothesis zero_initialized : FHE_isInitialized L (FHE_asEuint32 L 0) = true.

Lemma regionStat_listed s code :
  regions_consistent L s -> code ∈ regionList s ->
  regionStat s code = FHE_asEuint32 L 0.
Proof.
  intros [_ Hc] Hin. unfold regionStat, mload.
  destruct (Hc code) as [Hsome _]. rewrite (Hsome Hin). reflexivity.
Qed.

Lemma regionStat_unlisted s code :
  regions_consistent L s -> code ∉ regionList s -> regionStat s code = 0.
Proof.
  intros [_ Hc] Hout. unfold regionStat, mload.
  destruct (Hc code) as [_ Hnone]. rewrite (Hnone Hout). reflexivity.
Qed.

Lemma initialized_iff_listed s code :
  regions_consistent L s ->
  FHE_isInitialized L (regionStat s code) = bool_decide (code ∈ regionList s).
Proof.
  intros Hc. destruct (decide (code ∈ regionList s)) as [Hin | Hout].
  - rewrite regionStat_listed, bool_decide_eq_true_2 by assumption.
    exact zero_initialized.
  - rewrite regionStat_unlisted, bool_decide_eq_false_2 by assumption.
    exact unset_not_initialized.
Qed.

Lemma regions_initial : regions_consistent L initial.
Proof.
  split; [apply NoDup_nil_2|]. intros code. split.
  - intros Hin. cbn in Hin. apply not_elem_of_nil in Hin. contradiction.
  - intros _. apply lookup_empty.
Qed.

Lemma regions_submitted s eb ela elo ets regionCode now :
  regions_consistent L s ->
  regionList (submitted L s eb ela elo ets regionCode now)
    = register (regionList s) regionCode
  /\ regions_consistent L (submitted L s eb ela elo ets regionCode now).
Proof.
  intros Hc. unfold submitted, register. cbn zeta.
  rewrite (initialized_iff_listed s regionCode Hc).
  destruct (decide (regionCode ∈ regionList s)) as [Hin | Hout].
  - rewrite bool_decide_eq_true_2 by exact Hin. split; [reflexivity | exact Hc].
  - rewrite bool_decide_eq_false_2 by exact Hout. cbn.
    split; [reflexivity|]. destruct Hc as [Hnd Hc]. split.
    + apply NoDup_app. split; [exact Hnd|]. split; [|apply NoDup_singleton].
      intros x Hx Hx'. apply list_elem_of_singleton in Hx'. subst x.
      contradiction.
    + intros code.
      change (regionList (log_event _ _)) with (regionList s ++ [regionCode]).
      change (encryptedRegionStats (log_event _ _))
        with (<[regionCode := FHE_asEuint32 L 0]> (encryptedRegionStats s)).
      rewrite elem_of_app, list_elem_of_singleton, lookup_insert.
      destruct (decide (regionCode = code)) as [->|Hne].
      * split; [reflexivity|]. intros Hno. exfalso. apply Hno. right. reflexivity.
      * split.
        -- intros [Hin | Heq]; [apply Hc; exact Hin | congruence].
        -- intros Hno. apply Hc. intros Hin. apply Hno. left. exact Hin.
Qed.

Lemma regions_step s c :
  regions_consistent L s -> regions_consistent L (step L s c).
Proof.
  intros Hc.
  destruct c as [eb ela elo ets regionCode now | observationId reqId
                | requestId cleartexts proof | regionCode].
  - rewrite step_submit. destruct (_ <=? _); [|exact Hc].
    apply regions_submitted. exact Hc.
  - rewrite step_request. destruct (isRevealed _); exact Hc.
  - destruct (step_decrypt L s requestId cleartexts proof)
      as [-> | (r0 & r1 & r2 & r3 & _ & ->)]; exact Hc.
  - rewrite step_regional.
    destruct (FHE_isInitialized L (regionStat s regionCode)); exact Hc.
Qed.

Lemma regions_reachable s : reachable L s -> regions_consistent L s.
Proof.
  revert s. apply (reachable_ind L (regions_consistent L)).
  - apply regions_initial.
  - intros s' c _ Hc. apply regions_step. exact Hc.
Qed.

Lemma run_submits_regions subs : forall s,
  regions_consistent L s ->
  observationCount s + Z.of_nat (length subs) <= MAX_UINT256 ->
  regionList (run L s (map submit_call subs))
    = fold_left register (map sub_region subs) (regionList s).
Proof.
  induction subs as [|a subs IH]; intros s Hc Hle; [reflexivity|].
  cbn [map length fold_left] in *. rewrite run_cons, step_submit_call by lia.
  destruct (regions_submitted s (sub_brightness a) (sub_latitude a)
              (sub_longitude a) (sub_timestamp a) (sub_region a) (sub_now a) Hc)
    as [Hlist Hc'].
  rewrite IH; [rewrite Hlist; reflexivity | exact Hc' |].
  rewrite observationCount_submitted. lia.
Qed.

End Regions.

Lemma first_occurrences_elem codes code :
  code ∈ first_occurrences codes <-> code ∈ codes.
Proof.
  induction codes as [|c codes IH]; [reflexivity|].
  cbn [first_occurrences]. rewrite !elem_of_cons, list_elem_of_filter, IH.
  destruct (decide (code = c)); tauto.
Qed.

Lemma first_occurrences_NoDup codes : NoDup (first_occurrences codes).
Proof.
  induction codes as [|c codes IH]; [apply NoDup_nil_2|].
  cbn [first_occurrences]. apply NoDup_cons. split.
  - rewrite list_elem_of_filter. intros [Hne _]. congruence.
  - apply NoDup_filter. exact IH.
Qed.

(** Registering the codes one by one keeps each at its first occurrence. *)
Lemma fold_register codes : forall acc,
  fold_left register codes acc
  = acc ++ filter (fun x => x ∉ acc) (first_occurrences codes).
Proof.
  induction codes as [|c codes IH]; intros acc.
  - cbn. rewrite app_nil_r. reflexivity.
  - cbn [fold_left first_occurrences]. rewrite IH. unfold register.
    destruct (decide (c ∈ acc)) as [Hin | Hout].
    + rewrite filter_cons_False by (intros Hno; contradiction).
      f_equal. rewrite list_filter_filter. apply list_filter_iff.
      intros x. split; [|intros [Hx _]; exact Hx].
      intros Hx. split; [exact Hx | intros ->; contradiction].
    + rewrite filter_cons_True by exact Hout.
      rewrite <- app_assoc. cbn [app]. do 2 f_equal.
      rewrite list_filter_filter. apply list_filter_iff.
      intros x. rewrite elem_of_app, list_elem_of_singleton. tauto.
Qed.

Lemma fold_register_nil codes :
  fold_left register codes [] = first_occurrences codes.
Proof.
  rewrite fold_register. cbn [app].
  induction (first_occurrences codes) as [|x l IH]; [reflexivity|].
  rewrite filter_cons_True by apply not_elem_of_nil. f_equal. exact IH.
Qed.

(** C7: run from the initial state, a sequence of submit calls registers
    each distinct region code of its committed calls exactly once, at the
    first submission naming it: the registration list is the list of those
    codes, each at its first occurrence, it has no duplicate, and every
    listed code holds the encrypted zero.  In particular the region codes
    EU-1, EU-1, AS-2 leave the list EU-1, AS-2 and the count 3.  (The
    library is taken to report the unset handle as not initialized and the
    encrypted zero as initialized.) *)
Theorem regions_registered_once (L : FHEVM) (subs : list Submission) :
  FHE_isInitialized L 0 = false ->
  FHE_isInitialized L (FHE_asEuint32 L 0) = true ->
  exists k : nat,
    Z.of_nat k = Z.min (Z.of_nat (length subs)) MAX_UINT256
    /\ observationCount (after_submits L subs) = Z.of_nat k
    /\ regionList (after_submits L subs)
       = first_occurrences (map sub_region (take k subs))
    /\ NoDup (regionList (after_submits L subs))
    /\ (forall code, code ∈ regionList (after_submits L subs)
                     <-> code ∈ map sub_region (take k subs))
    /\ (forall code, code ∈ regionList (after_submits L subs) ->
          regionStat (after_submits L subs) code = FHE_asEuint32 L 0)
    /\ (map sub_region subs = ["EU-1"; "EU-1"; "AS-2"]%string ->
        regionList (after_submits L subs) = ["EU-1"; "AS-2"]%string
        /\ observationCount (after_submits L subs) = 3).
Proof.
  intros Hunset Hzero. unfold after_submits.
  destruct (run_submits_committed L subs) as (k & Hk & Hrun & Hlen).
  exists k. split; [exact Hk|].
  assert (Hfit : observationCount initial + Z.of_nat (length (take k subs))
                 <= MAX_UINT256) by (rewrite Hlen; cbn; lia).
  assert (Hcount : observationCount (run L initial (map submit_call subs))
                   = Z.of_nat k).
  { rewrite Hrun. destruct (run_submits_ok L (take k subs) initial Hfit) as (Hc & _).
    rewrite Hc, Hlen. reflexivity. }
  assert (Hlist : regionList (run L initial (map submit_call subs))
                  = first_occurrences (map sub_region (take k subs))).
  { rewrite Hrun, (run_submits_regions L Hunset Hzero (take k subs) initial
                     (regions_initial L) Hfit).
    apply fold_register_nil. }
  split; [exact Hcount|]. split; [exact Hlist|]. split; [|split; [|split]].
  - rewrite Hlist. apply first_occurrences_NoDup.
  - intros code. rewrite Hlist. apply first_occurrences_elem.
  - intros code Hin. apply (regionStat_listed L); [|exact Hin].
    apply (regions_reachable L Hunset Hzero). eexists; reflexivity.
  - intros Hcodes.
    assert (Hn : length subs = 3%nat).
    { rewrite <- (length_map sub_region), Hcodes. reflexivity. }
    assert (Hk3 : k = 3%nat) by (unfold MAX_UINT256 in Hk; lia).
    rewrite Hlist, Hcount, Hk3, <- Hn, firstn_all, Hcodes, Hn.
    split; reflexivity.
Qed.

Lemma regions_registered_once_witness :
  FHE_isInitialized stubFHE 0 = false
  /\ FHE_isInitialized stubFHE (FHE_asEuint32 stubFHE 0) = true
  /\ regionList (after_submits stubFHE demo_regions) = ["EU-1"; "AS-2"]%string
  /\ observationCount (after_submits stubFHE demo_regions) = 3.
Proof.
  split; [reflexivity|]. split; [reflexivity|].
  destruct (regions_registered_once stubFHE demo_regions eq_refl eq_refl)
    as (k & _ & _ & _ & _ & _ & _ & Hdemo).
  apply Hdemo. reflexivity.
Defined.

(** ** Regional average *)

Lemma count_nonneg_step L s c :
  0 <= observationCount s -> 0 <= observationCount (step L s c).
Proof. intros H. pose proof (step_count_mono L s c). lia. Qed.

Lemma count_nonneg_reachable L s : reachable L s -> 0 <= observationCount s.
Proof.
  revert s. apply (reachable_ind L (fun s => 0 <= observationCount s)).
  - cbn. lia.
  - intros s' c _ H. apply count_nonneg_step. exact H.
Qed.

(** C8, as amended: in every reachable state,
    [calculateRegionalBrightness] fails with "Region not found" for a code
    that was never registered, and for a registered code returns the
    ciphertext stored for the region divided, by the library, by the
    encryption of the global observation count cast to 32 bits (the count
    modulo 2^32, which is the count itself below 2^32); the number of
    submissions naming the region plays no part.  (The library is taken to
    report the unset handle as not initialized and the encrypted zero as
    initialized.) *)
Theorem regional_average_global_divisor (L : FHEVM) (s : State) (regionCode : string) :
  FHE_isInitialized L 0 = false ->
  FHE_isInitialized L (FHE_asEuint32 L 0) = true ->
  reachable L s ->
  (regionCode ∉ regionList s ->
     transact (calculateRegionalBrightness L regionCode) s
       = Reverted (RequireFailed "Region not found")
     /\ fails_with (transact (calculateRegionalBrightness L regionCode) s)
          RegionNotFound)
  /\ (regionCode ∈ regionList s ->
      exists s',
        transact (calculateRegionalBrightness L regionCode) s
          = Committed
              (FHE_div L (regionStat s regionCode)
                 (FHE_asEuint32 L (uint32 (observationCount s)))) s'
        /\ (observationCount s < 2 ^ 32 ->
            uint32 (observationCount s) = observationCount s)).
Proof.
  intros Hunset Hzero Hreach.
  pose proof (regions_reachable L Hunset Hzero s Hreach) as Hc.
  rewrite transact_regional, (initialized_iff_listed L Hunset Hzero s regionCode Hc).
  split.
  - intros Hout. rewrite bool_decide_eq_false_2 by exact Hout.
    split; [reflexivity | apply fails_with_Reverted; reflexivity].
  - intros Hin. rewrite bool_decide_eq_true_2 by exact Hin.
    eexists. split; [reflexivity|].
    intros Hlt. pose proof (count_nonneg_reachable L s Hreach).
    unfold uint32. apply Z.mod_small. lia.
Qed.

Lemma regional_average_global_divisor_witness :
  FHE_isInitialized stubFHE 0 = false
  /\ FHE_isInitialized stubFHE (FHE_asEuint32 stubFHE 0) = true
  /\ reachable stubFHE (after_submits stubFHE demo_regions)
  /\ fails_with
       (transact (calculateRegionalBrightness stubFHE "XX-9")
          (after_submits stubFHE demo_regions)) RegionNotFound
  /\ exists s',
       transact (calculateRegionalBrightness stubFHE "AS-2")
         (after_submits stubFHE demo_regions)
       = Committed
           (FHE_div stubFHE (regionStat (after_submits stubFHE demo_regions) "AS-2")
              (FHE_asEuint32 stubFHE
                 (uint32 (observationCount (after_submits stubFHE demo_regions)))))
           s'.
Proof.
  assert (Hreach : reachable stubFHE (after_submits stubFHE demo_regions))
    by (eexists; reflexivity).
  split; [reflexivity|]. split; [reflexivity|]. split; [exact Hreach|].
  destruct (regional_average_global_divisor stubFHE
              (after_submits stubFHE demo_regions) "XX-9" eq_refl eq_refl Hreach)
    as [Hfail _].
  destruct (regional_average_global_divisor stubFHE
              (after_submits stubFHE demo_regions) "AS-2" eq_refl eq_refl Hreach)
    as [_ Hok].
  split.
  - apply Hfail. vm_compute. intros Hin.
    repeat (apply elem_of_cons in Hin as [Heq | Hin]; [discriminate Heq|]).
    apply not_elem_of_nil in Hin. exact Hin.
  - destruct Hok as (s' & Heq & _).
    + vm_compute. apply elem_of_cons. right. apply elem_of_cons. left. reflexivity.
    + exists s'. exact Heq.
Defined.

(** C8 fails as stated: two submissions name "EU-1", with brightness
    plaintexts 10 and 20, among three submissions in all.  The accumulated
    sum divided by the count would decrypt to 10; the call returns a
    ciphertext that decrypts to 0, the stored value being the encrypted
    zero of the registration. *)
Lemma regional_average_not_accumulated :
  "EU-1"%string ∈ regionList (after_submits stubFHE demo_regions)
  /\ observationCount (after_submits stubFHE demo_regions) = 3
  /\ stub_plain (accumulated_sum stubFHE stubArith demo_regions "EU-1") = 30
  /\ (exists s',
        transact (calculateRegionalBrightness stubFHE "EU-1")
          (after_submits stubFHE demo_regions) = Committed 1 s')
  /\ stub_plain 1 = 0
  /\ stub_plain
       (FHE_div stubFHE (accumulated_sum stubFHE stubArith demo_regions "EU-1")
          (FHE_asEuint32 stubFHE
             (observationCount (after_submits stubFHE demo_regions)))) = 10
  /\ 1 <> FHE_div stubFHE (accumulated_sum stubFHE stubArith demo_regions "EU-1")
            (FHE_asEuint32 stubFHE
               (observationCount (after_submits stubFHE demo_regions))).
Proof.
  split; [vm_compute; apply elem_of_cons; left; reflexivity|].
  split; [vm_compute; reflexivity|]. split; [vm_compute; reflexivity|].
  split; [eexists; vm_compute; reflexivity|]. split; [reflexivity|].
  split; [vm_compute; reflexivity | vm_compute; discriminate].
Qed.

(** The cast of the divisor wraps: once 2^32 observations are submitted,
    the divisor handed to the library is the encryption of 0. *)
Lemma regional_divisor_wraps (L : FHEVM) (a : Submission) (n : nat) :
  FHE_isInitialized L 0 = false ->
  FHE_isInitialized L (FHE_asEuint32 L 0) = true ->
  Z.of_nat n = 2 ^ 32 ->
  observationCount (after_submits L (replicate n a)) = 2 ^ 32
  /\ exists s',
       transact (calculateRegionalBrightness L (sub_region a))
         (after_submits L (replicate n a))
       = Committed (FHE_div L (FHE_asEuint32 L 0) (FHE_asEuint32 L 0)) s'.
Proof.
  intros Hunset Hzero Hn. unfold after_submits.
  assert (Hfit : observationCount initial + Z.of_nat (length (replicate n a))
                 <= MAX_UINT256).
  { rewrite length_replicate, Hn. unfold MAX_UINT256. cbn [observationCount initial].
    lia. }
  destruct (run_submits_ok L (replicate n a) initial Hfit) as (Hcount & _).
  rewrite length_replicate, Hn in Hcount. cbn [observationCount initial] in Hcount.
  rewrite Z.add_0_l in Hcount.
  split; [exact Hcount|].
  assert (Hreach : reachable L (run L initial (map submit_call (replicate n a))))
    by (eexists; reflexivity).
  pose proof (regions_reachable L Hunset Hzero _ Hreach) as Hc.
  assert (Hin : sub_region a
                ∈ regionList (run L initial (map submit_call (replicate n a)))).
  { rewrite (run_submits_regions L Hunset Hzero (replicate n a) initial
               (regions_initial L) Hfit).
    cbn [regionList initial]. rewrite fold_register_nil.
    apply first_occurrences_elem.
    destruct n as [|n]; [cbn in Hn; lia|].
    cbn [replicate map]. apply elem_of_cons. left. reflexivity. }
  rewrite transact_regional, (regionStat_listed L _ _ Hc Hin), Hzero, Hcount.
  eexists. reflexivity.
Qed.

(** The divisor is the global count: "AS-2" was named by one of the three
    submissions, and the divisor handed to the library is the encryption
    of 3. *)
Lemma regional_average_divisor_example :
  exists s',
    transact (calculateRegionalBrightness stubFHE "AS-2")
      (after_submits stubFHE demo_regions)
    = Committed (FHE_div stubFHE (FHE_asEuint32 stubFHE 0) (FHE_asEuint32 stubFHE 3)) s'.
Proof. eexists. vm_compute. reflexivity. Qed.

(** ** Identities that were never assigned *)

Lemma encryptedObservations_submitted L s eb ela elo ets regionCode now :
  encryptedObservations (submitted L s eb ela elo ets regionCode now)
  = <[observationCount s + 1 :=
        mkEncryptedObservation (observationCount s + 1) eb ela elo ets now]>
      (encryptedObservations s).
Proof.
  unfold submitted. cbn zeta.
  destruct (FHE_isInitialized L (regionStat s regionCode)); reflexivity.
Qed.

Lemma ledger_wf_initial : ledger_wf initial.
Proof.
  split; [cbn; unfold MAX_UINT256; lia|]. split.
  - intros id _. apply lookup_empty.
  - intros id _. reflexivity.
Qed.

Lemma ledger_wf_step L s c : ledger_wf s -> ledger_wf (step L s c).
Proof.
  intros (Hcount & Henc & Hdec).
  destruct c as [eb ela elo ets regionCode now | observationId reqId
                | requestId cleartexts proof | regionCode].
  - rewrite step_submit.
    destruct (observationCount s + 1 <=? MAX_UINT256) eqn:Hb;
      [|repeat split; assumption || apply Hcount].
    apply Z.leb_le in Hb. split; [|split].
    + rewrite observationCount_submitted. lia.
    + intros id Hid. rewrite observationCount_submitted in Hid.
      rewrite encryptedObservations_submitted, lookup_insert_ne by lia.
      apply Henc. lia.
    + intros id. rewrite decryptedAt_submitted.
      destruct (decide (observationCount s + 1 = id)); [reflexivity | apply Hdec].
  - rewrite step_request.
    destruct (isRevealed (decryptedAt s observationId));
      repeat split; assumption || apply Hcount.
  - destruct (step_decrypt L s requestId cleartexts proof)
      as [-> | (r0 & r1 & r2 & r3 & _ & ->)];
      [repeat split; assumption || apply Hcount|].
    split; [exact Hcount|]. split; [exact Henc|].
    intros id. rewrite decryptedAt_decrypted.
    destruct (decide (observationOf s requestId = id)); [discriminate | apply Hdec].
  - rewrite step_regional.
    destruct (FHE_isInitialized L (regionStat s regionCode));
      repeat split; assumption || apply Hcount.
Qed.

Lemma ledger_wf_reachable L s : reachable L s -> ledger_wf s.
Proof.
  revert s. apply (reachable_ind L ledger_wf).
  - apply ledger_wf_initial.
  - intros s' c _ Hwf. apply ledger_wf_step. exact Hwf.
Qed.

Lemma encryptedAt_unassigned L s id :
  reachable L s -> id <= 0 \/ observationCount s < id ->
  encryptedAt s id = zeroEncrypted.
Proof.
  intros Hreach Hid. destruct (ledger_wf_reachable L s Hreach) as (_ & Henc & _).
  unfold encryptedAt, mload. rewrite (Henc id Hid). reflexivity.
Qed.

(** C9, as amended: for an identity that was never assigned, neither
    getter fails.  The getter of the encrypted records returns the
    all-zero record; [getDecryptedObservation] returns the stored decrypted
    record, which is the all-zero unrevealed record unless a reveal has
    been fulfilled for that identity. *)
Theorem getters_default_for_unassigned (L : FHEVM) (s : State) (id : Z) :
  reachable L s ->
  id <= 0 \/ observationCount s < id ->
  transact (getEncryptedObservation id) s = Committed zeroEncrypted s
  /\ transact (getDecryptedObservation id) s = Committed (decryptedAt s id) s
  /\ (isRevealed (decryptedAt s id) = false -> decryptedAt s id = zeroDecrypted)
  /\ ~ fails_with (transact (getEncryptedObservation id) s) NotFound
  /\ ~ fails_with (transact (getDecryptedObservation id) s) NotFound.
Proof.
  intros Hreach Hid.
  assert (Henc : transact (getEncryptedObservation id) s = Committed zeroEncrypted s).
  { unfold transact, getEncryptedObservation, read.
    rewrite (encryptedAt_unassigned L s id Hreach Hid). reflexivity. }
  assert (Hdec : transact (getDecryptedObservation id) s
                 = Committed (decryptedAt s id) s).
  { unfold transact, getDecryptedObservation, bind, read, ret.
    destruct (decryptedAt s id). reflexivity. }
  split; [exact Henc|]. split; [exact Hdec|]. split; [|split].
  - apply (ledger_wf_reachable L s Hreach).
  - rewrite Henc. apply fails_with_Committed.
  - rewrite Hdec. apply fails_with_Committed.
Qed.

Lemma getters_default_for_unassigned_witness :
  reachable stubFHE s_submitted
  /\ observationCount s_submitted < 2
  /\ transact (getEncryptedObservation 2) s_submitted
     = Committed zeroEncrypted s_submitted
  /\ transact (getDecryptedObservation 2) s_submitted
     = Committed (decryptedAt s_submitted 2) s_submitted.
Proof.
  assert (Hreach : reachable stubFHE s_submitted)
    by (exists [submit_call demo_submission]; reflexivity).
  assert (Hid : 2 <= 0 \/ observationCount s_submitted < 2)
    by (right; vm_compute; reflexivity).
  split; [exact Hreach|]. split; [vm_compute; reflexivity|].
  destruct (getters_default_for_unassigned stubFHE s_submitted 2 Hreach Hid)
    as (Henc & Hdec & _).
  split; [exact Henc | exact Hdec].
Defined.

(** C9 fails as stated: identity 2 was never assigned (the count is 1),
    and both getters return the all-zero record instead of failing. *)
Lemma getters_do_not_fail :
  observationCount s_submitted = 1
  /\ transact (getEncryptedObservation 2) s_submitted
     = Committed zeroEncrypted s_submitted
  /\ transact (getDecryptedObservation 2) s_submitted
     = Committed zeroDecrypted s_submitted
  /\ ~ fails_with (transact (getEncryptedObservation 2) s_submitted) NotFound
  /\ ~ fails_with (transact (getDecryptedObservation 2) s_submitted) NotFound.
Proof.
  assert (Henc : transact (getEncryptedObservation 2) s_submitted
                 = Committed zeroEncrypted s_submitted) by (vm_compute; reflexivity).
  assert (Hdec : transact (getDecryptedObservation 2) s_submitted
                 = Committed zeroDecrypted s_submitted) by (vm_compute; reflexivity).
  split; [vm_compute; reflexivity|]. split; [exact Henc|]. split; [exact Hdec|].
  rewrite Henc, Hdec. split; apply fails_with_Committed.
Qed.

(** C10, as amended: for an identity that was never assigned,
    [requestObservationDecryption] never fails with [NotFound]; its only
    guard is the revealed flag of the stored decrypted record.  When that
    record is not revealed it is the default all-zero record, and the call
    commits: it hands the library a request over the four handles of the
    all-zero encrypted record, stores the correlation from the returned
    request identity to the unassigned identity, and emits
    [DecryptionRequested].  When a reveal has already been fulfilled for
    the unassigned identity, the call fails with "Already decrypted" and
    nothing is dispatched. *)
Theorem request_unassigned_proceeds (L : FHEVM) (s : State) (id reqId : Z) :
  reachable L s ->
  id <= 0 \/ observationCount s < id ->
  (isRevealed (decryptedAt s id) = false ->
     decryptedAt s id = zeroDecrypted
     /\ exists s',
          transact (requestObservationDecryption L id reqId) s = Committed tt s'
          /\ decryptionRequests s'
             = decryptionRequests s
               ++ [(reqId, [FHE_toBytes32 L 0; FHE_toBytes32 L 0;
                            FHE_toBytes32 L 0; FHE_toBytes32 L 0])]
          /\ observationOf s' reqId = id
          /\ events s' = events s ++ [DecryptionRequested id]
          /\ observationCount s' = observationCount s)
  /\ (isRevealed (decryptedAt s id) = true ->
      transact (requestObservationDecryption L id reqId) s
        = Reverted (RequireFailed "Already decrypted")
      /\ fails_with (transact (requestObservationDecryption L id reqId) s)
           AlreadyRevealed).
Proof.
  intros Hreach Hid. rewrite transact_request. split.
  - intros Hfresh. rewrite Hfresh.
    destruct (ledger_wf_reachable L s Hreach) as (_ & _ & Hdec).
    split; [apply Hdec; exact Hfresh|].
    eexists. split; [reflexivity|].
    split; [|split; [|split; reflexivity]].
    + unfold requested, handles_of.
      rewrite (encryptedAt_unassigned L s id Hreach Hid). reflexivity.
    + rewrite observationOf_requested.
      destruct (decide (reqId = reqId)); [reflexivity | congruence].
  - intros Hrev. rewrite Hrev. split; [reflexivity|].
    apply fails_with_Reverted. reflexivity.
Qed.

Lemma request_unassigned_proceeds_witness :
  reachable stubFHE s_submitted
  /\ observationCount s_submitted < 5
  /\ isRevealed (decryptedAt s_submitted 5) = false
  /\ (exists s',
        transact (requestObservationDecryption stubFHE 5 77) s_submitted
          = Committed tt s'
        /\ decryptionRequests s' = [(77, [0; 0; 0; 0])]
        /\ observationOf s' 77 = 5)
  /\ reachable stubFHE s_revealed_early
  /\ observationCount s_revealed_early < 1
  /\ isRevealed (decryptedAt s_revealed_early 1) = true
  /\ transact (requestObservationDecryption stubFHE 1 78) s_revealed_early
     = Reverted (RequireFailed "Already decrypted").
Proof.
  assert (Hreach : reachable stubFHE s_submitted)
    by (exists [submit_call demo_submission]; reflexivity).
  assert (Hid : 5 <= 0 \/ observationCount s_submitted < 5)
    by (right; vm_compute; reflexivity).
  assert (Hreach' : reachable stubFHE s_revealed_early) by (eexists; reflexivity).
  assert (Hid' : 1 <= 0 \/ observationCount s_revealed_early < 1)
    by (right; vm_compute; reflexivity).
  split; [exact Hreach|]. split; [vm_compute; reflexivity|].
  split; [reflexivity|].
  destruct (request_unassigned_proceeds stubFHE s_submitted 5 77 Hreach Hid)
    as (Hgo & _).
  destruct (Hgo eq_refl) as (_ & s' & Htx & Hreq & Hcorr & _).
  split; [exists s'; split; [exact Htx|]; split; [exact Hreq | exact Hcorr]|].
  split; [exact Hreach'|]. split; [vm_compute; reflexivity|].
  split; [reflexivity|].
  destruct (request_unassigned_proceeds stubFHE s_revealed_early 1 78 Hreach' Hid')
    as (_ & Hstop).
  apply Hstop. reflexivity.
Defined.

(** C10 fails as stated: identity 1 was never assigned (the count is 0),
    but a reveal was requested and fulfilled for it; a further request for
    identity 1 stops at the revealed flag, dispatches nothing and records
    no correlation. *)
Lemma request_unassigned_can_stop :
  reachable stubFHE s_revealed_early
  /\ observationCount s_revealed_early = 0
  /\ transact (requestObservationDecryption stubFHE 1 78) s_revealed_early
     = Reverted (RequireFailed "Already decrypted")
  /\ ~ succeeds (transact (requestObservationDecryption stubFHE 1 78)
                   s_revealed_early)
  /\ observationOf (step stubFHE s_revealed_early (RequestObservationDecryption 1 78))
       78 = 0
  /\ decryptionRequests
       (step stubFHE s_revealed_early (RequestObservationDecryption 1 78))
     = decryptionRequests s_revealed_early.
Proof.
  assert (Heq : transact (requestObservationDecryption stubFHE 1 78) s_revealed_early
                = Reverted (RequireFailed "Already decrypted"))
    by (vm_compute; reflexivity).
  split; [eexists; reflexivity|]. split; [vm_compute; reflexivity|].
  split; [exact Heq|]. split.
  - rewrite Heq. intros (u & s' & H). discriminate H.
  - split; vm_compute; reflexivity.
Qed.

(** ** Further properties of the entry points *)

Lemma correlations_submitted L s eb ela elo ets regionCode now :
  requestToObservationId (submitted L s eb ela elo ets regionCode now)
    = requestToObservationId s
  /\ decryptionRequests (submitted L s eb ela elo ets regionCode now)
     = decryptionRequests s.
Proof.
  unfold submitted. cbn zeta.
  destruct (FHE_isInitialized L (regionStat s regionCode)); split; reflexivity.
Qed.

(** X1: a submit commits exactly when the checked increment of the count
    does not overflow.  It then stores the new pair of records under
    identity count + 1, leaves the records of every other identity, the
    correlations and the dispatched requests as they were, and appends one
    [ObservationSubmitted] event. *)
Theorem submit_commits_and_frames (L : FHEVM) (s : State)
    (eb ela elo ets : Z) (regionCode : string) (now : Z) :
  observationCount s + 1 <= MAX_UINT256 ->
  exists s',
    transact (submitEncryptedObservation L eb ela elo ets regionCode now) s
      = Committed tt s'
    /\ observationCount s' = observationCount s + 1
    /\ encryptedAt s' (observationCount s + 1)
       = mkEncryptedObservation (observationCount s + 1) eb ela elo ets now
    /\ decryptedAt s' (observationCount s + 1) = zeroDecrypted
    /\ (forall id, id <> observationCount s + 1 ->
          encryptedAt s' id = encryptedAt s id
          /\ decryptedAt s' id = decryptedAt s id)
    /\ requestToObservationId s' = requestToObservationId s
    /\ decryptionRequests s' = decryptionRequests s
    /\ events s' = events s ++ [ObservationSubmitted (observationCount s + 1) now].
Proof.
  intros Hfit. exists (submitted L s eb ela elo ets regionCode now).
  rewrite transact_submit.
  destruct (observationCount s + 1 <=? MAX_UINT256) eqn:Hb;
    [|apply Z.leb_gt in Hb; lia].
  split; [reflexivity|]. split; [apply observationCount_submitted|].
  split; [|split; [|split; [|split; [|split]]]].
  - rewrite encryptedAt_submitted. destruct (decide _); [reflexivity | congruence].
  - rewrite decryptedAt_submitted. destruct (decide _); [reflexivity | congruence].
  - intros id Hid. rewrite encryptedAt_submitted, decryptedAt_submitted.
    destruct (decide _); [congruence | split; reflexivity].
  - apply correlations_submitted.
  - apply correlations_submitted.
  - apply events_submitted.
Qed.

Lemma submit_commits_and_frames_witness :
  observationCount s_pending + 1 <= MAX_UINT256
  /\ exists s',
       transact (submitEncryptedObservation stubFHE 21 22 23 24 "AS-2" 1700000060)
         s_pending = Committed tt s'
       /\ observationCount s' = 2
       /\ encryptedAt s' 1 = encryptedAt s_pending 1
       /\ requestToObservationId s' = requestToObservationId s_pending.
Proof.
  assert (Hfit : observationCount s_pending + 1 <= MAX_UINT256)
    by (vm_compute; discriminate).
  split; [exact Hfit|].
  destruct (submit_commits_and_frames stubFHE s_pending 21 22 23 24 "AS-2"
              1700000060 Hfit)
    as (s' & Htx & Hc & _ & _ & Hother & Hreq & _).
  exists s'. split; [exact Htx|]. split; [rewrite Hc; reflexivity|].
  split; [apply Hother; vm_compute; discriminate | exact Hreq].
Defined.

(** At the largest count the increment overflows: the submit reverts with
    the arithmetic panic. *)
Lemma submit_overflow_reverts L s eb ela elo ets regionCode now :
  MAX_UINT256 < observationCount s + 1 ->
  transact (submitEncryptedObservation L eb ela elo ets regionCode now) s
    = Reverted (Panic 17).
Proof.
  intros Hover. rewrite transact_submit.
  destruct (observationCount s + 1 <=? MAX_UINT256) eqn:Hb; [|reflexivity].
  apply Z.leb_le in Hb. lia.
Qed.

Lemma step_keeps_encrypted L s c id :
  id <> observationCount s + 1 ->
  encryptedAt (step L s c) id = encryptedAt s id.
Proof.
  intros Hid.
  destruct c as [eb ela elo ets regionCode now | observationId reqId
                | requestId cleartexts proof | regionCode].
  - rewrite step_submit. destruct (_ <=? _); [|reflexivity].
    rewrite encryptedAt_submitted. destruct (decide _); [congruence | reflexivity].
  - rewrite step_request. destruct (isRevealed _); reflexivity.
  - destruct (step_decrypt L s requestId cleartexts proof)
      as [-> | (r0 & r1 & r2 & r3 & _ & ->)]; reflexivity.
  - rewrite step_regional.
    destruct (FHE_isInitialized L (regionStat s regionCode)); reflexivity.
Qed.

(** X2: the encrypted record of an assigned identity is never changed
    again, whatever calls follow: the reveal protocol and later submits
    leave the submitted ciphertext handles, the observer field and the
    submission time untouched. *)
Theorem ciphertexts_never_change (L : FHEVM) (s : State) (calls : list Call) (id : Z) :
  id <= observationCount s ->
  encryptedAt (run L s calls) id = encryptedAt s id.
Proof.
  revert s. induction calls as [|c calls IH]; intros s Hid; [reflexivity|].
  rewrite run_cons, IH.
  - apply step_keeps_encrypted. lia.
  - pose proof (step_count_mono L s c). lia.
Qed.

Lemma ciphertexts_never_change_witness :
  1 <= observationCount s_submitted
  /\ encryptedAt
       (run stubFHE s_submitted
          [RequestObservationDecryption 1 77;
           DecryptObservation 77 demo_cleartexts demo_proof;
           submit_call demo_submission; CalculateRegionalBrightness "EU-1"]) 1
     = encryptedAt s_submitted 1.
Proof.
  assert (Hid : 1 <= observationCount s_submitted) by (vm_compute; discriminate).
  split; [exact Hid|]. apply (ciphertexts_never_change stubFHE s_submitted). exact Hid.
Defined.

Lemma submitted_ids_app_other s e :
  submitted_id e = None -> submitted_ids (log_event e s) = submitted_ids s.
Proof.
  intros He. unfold submitted_ids, log_event. cbn [events].
  rewrite omap_app. cbn. rewrite He. apply app_nil_r.
Qed.

(** X3: in every reachable state, whatever calls were interleaved with the
    submits, the identities announced by [ObservationSubmitted] are
    exactly 1, 2, ..., observationCount, in this order. *)
Theorem reachable_ids_sequential (L : FHEVM) (s : State) :
  reachable L s ->
  exists n : nat,
    observationCount s = Z.of_nat n
    /\ submitted_ids s = map Z.of_nat (seq 1 n).
Proof.
  revert s. apply (reachable_ind L (fun s => exists n : nat,
    observationCount s = Z.of_nat n /\ submitted_ids s = map Z.of_nat (seq 1 n))).
  - exists O. split; reflexivity.
  - intros s c _ (n & Hn & Hids).
    destruct c as [eb ela elo ets regionCode now | observationId reqId
                  | requestId cleartexts proof | regionCode].
    + rewrite step_submit. destruct (_ <=? _); [|exists n; split; assumption].
      exists (S n). split.
      * rewrite observationCount_submitted, Hn. lia.
      * unfold submitted_ids. rewrite events_submitted, omap_app.
        fold (submitted_ids s). rewrite Hids, seq_S, map_app. cbn.
        do 2 f_equal. lia.
    + rewrite step_request. destruct (isRevealed _); exists n; split; try assumption.
      unfold requested. rewrite submitted_ids_app_other by reflexivity. exact Hids.
    + destruct (step_decrypt L s requestId cleartexts proof)
        as [-> | (r0 & r1 & r2 & r3 & _ & ->)]; exists n; split; try assumption.
      unfold decrypted. rewrite submitted_ids_app_other by reflexivity. exact Hids.
    + rewrite step_regional.
      destruct (FHE_isInitialized L (regionStat s regionCode));
        exists n; split; try assumption.
      rewrite submitted_ids_app_other by reflexivity. exact Hids.
Qed.

Lemma reachable_ids_sequential_witness :
  reachable stubFHE s_revealed
  /\ exists n : nat,
       observationCount s_revealed = Z.of_nat n
       /\ submitted_ids s_revealed = map Z.of_nat (seq 1 n).
Proof.
  assert (Hreach : reachable stubFHE s_revealed).
  { exists [submit_call demo_submission; RequestObservationDecryption 1 77;
            DecryptObservation 77 demo_cleartexts demo_proof]. reflexivity. }
  split; [exact Hreach|]. apply (reachable_ids_sequential stubFHE). exact Hreach.
Defined.

(** A step is a committed submit, or it keeps the count, the encrypted
    records and the region bookkeeping. *)
Lemma step_cases L s c :
  (exists eb ela elo ets regionCode now,
     observationCount s + 1 <= MAX_UINT256
     /\ step L s c = submitted L s eb ela elo ets regionCode now)
  \/ (observationCount (step L s c) = observationCount s
      /\ encryptedObservations (step L s c) = encryptedObservations s
      /\ regionList (step L s c) = regionList s
      /\ encryptedRegionStats (step L s c) = encryptedRegionStats s).
Proof.
  destruct c as [eb ela elo ets regionCode now | observationId reqId
                | requestId cleartexts proof | regionCode].
  - rewrite step_submit.
    destruct (observationCount s + 1 <=? MAX_UINT256) eqn:Hb.
    + left. exists eb, ela, elo, ets, regionCode, now.
      apply Z.leb_le in Hb. split; [exact Hb | reflexivity].
    + right. repeat split.
  - right. rewrite step_request. destruct (isRevealed _); repeat split.
  - right. destruct (step_decrypt L s requestId cleartexts proof)
      as [-> | (r0 & r1 & r2 & r3 & _ & ->)]; repeat split.
  - right. rewrite step_regional.
    destruct (FHE_isInitialized L (regionStat s regionCode)); repeat split.
Qed.

(** X4: in every reachable state the observer field of each stored
    observation is the observation's own identity; the caller of the
    submit is recorded nowhere. *)
Theorem stored_observer_is_identity (L : FHEVM) (s : State) (id : Z) :
  reachable L s ->
  1 <= id <= observationCount s ->
  observerId (encryptedAt s id) = id.
Proof.
  intros Hreach. revert id. revert s Hreach.
  apply (reachable_ind L (fun s => forall id, 1 <= id <= observationCount s ->
                                     observerId (encryptedAt s id) = id)).
  - intros id Hid. cbn in Hid. lia.
  - intros s c _ IH id Hid.
    destruct (step_cases L s c)
      as [(eb & ela & elo & ets & regionCode & now & _ & Heq)
         | (Hc & Henc & _)].
    + rewrite Heq in *. rewrite observationCount_submitted in Hid.
      rewrite encryptedAt_submitted.
      destruct (decide (observationCount s + 1 = id)) as [<-|Hne]; [reflexivity|].
      apply IH. lia.
    + unfold encryptedAt. rewrite Henc. apply IH. lia.
Qed.

Lemma stored_observer_is_identity_witness :
  reachable stubFHE (after_submits stubFHE demo_regions)
  /\ 1 <= 2 <= observationCount (after_submits stubFHE demo_regions)
  /\ observerId (encryptedAt (after_submits stubFHE demo_regions) 2) = 2.
Proof.
  assert (Hreach : reachable stubFHE (after_submits stubFHE demo_regions))
    by (eexists; reflexivity).
  assert (Hid : 1 <= 2 <= observationCount (after_submits stubFHE demo_regions))
    by (split; vm_compute; discriminate).
  split; [exact Hreach|]. split; [exact Hid|].
  apply (stored_observer_is_identity stubFHE); assumption.
Defined.

(** X5: no entry point ever adds a submitted brightness into a region's
    sum.  In every reachable state the stored sum of each registered
    region is still the encrypted zero it was initialized with, so
    [calculateRegionalBrightness] returns the encrypted zero divided by
    the encrypted count.  (The library is taken to report the unset handle
    as not initialized and the encrypted zero as initialized.) *)
Theorem region_sums_stay_zero (L : FHEVM) (s : State) (regionCode : string) :
  FHE_isInitialized L 0 = false ->
  FHE_isInitialized L (FHE_asEuint32 L 0) = true ->
  reachable L s ->
  regionCode ∈ regionList s ->
  regionStat s regionCode = FHE_asEuint32 L 0
  /\ transact (calculateRegionalBrightness L regionCode) s
     = Committed
         (FHE_div L (FHE_asEuint32 L 0)
            (FHE_asEuint32 L (uint32 (observationCount s))))
         (log_event (PollutionMapUpdated (bytes32ToUint (keccak256 L regionCode))) s).
Proof.
  intros Hunset Hzero Hreach Hin.
  pose proof (regions_reachable L Hunset Hzero s Hreach) as Hc.
  pose proof (regionStat_listed L s regionCode Hc Hin) as Hstat.
  split; [exact Hstat|].
  rewrite transact_regional, Hstat, Hzero. reflexivity.
Qed.

Lemma region_sums_stay_zero_witness :
  FHE_isInitialized stubFHE 0 = false
  /\ FHE_isInitialized stubFHE (FHE_asEuint32 stubFHE 0) = true
  /\ reachable stubFHE (after_submits stubFHE demo_regions)
  /\ "EU-1"%string ∈ regionList (after_submits stubFHE demo_regions)
  /\ regionStat (after_submits stubFHE demo_regions) "EU-1" = FHE_asEuint32 stubFHE 0.
Proof.
  assert (Hreach : reachable stubFHE (after_submits stubFHE demo_regions))
    by (eexists; reflexivity).
  assert (Hin : "EU-1"%string ∈ regionList (after_submits stubFHE demo_regions))
    by (vm_compute; apply elem_of_cons; left; reflexivity).
  split; [reflexivity|]. split; [reflexivity|]. split; [exact Hreach|].
  split; [exact Hin|].
  apply (region_sums_stay_zero stubFHE (after_submits stubFHE demo_regions) "EU-1"
           eq_refl eq_refl Hreach Hin).
Defined.

Lemma regionList_submitted_length L s eb ela elo ets regionCode now :
  (length (regionList (submitted L s eb ela elo ets regionCode now))
   <= S (length (regionList s)))%nat.
Proof.
  unfold submitted. cbn zeta.
  destruct (FHE_isInitialized L (regionStat s regionCode)); cbn.
  - lia.
  - rewrite length_app. cbn. lia.
Qed.

(** X6: in every reachable state the registration list is no longer than
    the observation count: a region is only ever registered by a committed
    submit, one region at most per submit. *)
Theorem regions_bounded_by_count (L : FHEVM) (s : State) :
  reachable L s ->
  Z.of_nat (length (regionList s)) <= observationCount s.
Proof.
  revert s. apply (reachable_ind L (fun s =>
    Z.of_nat (length (regionList s)) <= observationCount s)).
  - cbn. lia.
  - intros s c _ IH.
    destruct (step_cases L s c)
      as [(eb & ela & elo & ets & regionCode & now & _ & Heq)
         | (Hc & _ & Hlist & _)].
    + rewrite Heq, observationCount_submitted.
      pose proof (regionList_submitted_length L s eb ela elo ets regionCode now).
      lia.
    + rewrite Hc, Hlist. exact IH.
Qed.

Lemma regions_bounded_by_count_witness :
  reachable stubFHE (after_submits stubFHE demo_regions)
  /\ Z.of_nat (length (regionList (after_submits stubFHE demo_regions)))
     <= observationCount (after_submits stubFHE demo_regions).
Proof.
  assert (Hreach : reachable stubFHE (after_submits stubFHE demo_regions))
    by (eexists; reflexivity).
  split; [exact Hreach | apply (regions_bounded_by_count stubFHE); exact Hreach].
Defined.

(** A run of submits from a ledger without reveal activity has none. *)
Lemma run_submits_fresh L subs : forall s,
  (forall id, decryptedAt s id = zeroDecrypted) ->
  decryptionRequests s = [] ->
  (forall id, decryptedAt (run L s (map submit_call subs)) id = zeroDecrypted)
  /\ decryptionRequests (run L s (map submit_call subs)) = [].
Proof.
  induction subs as [|a subs IH]; intros s Hdec Hreq; [split; assumption|].
  cbn [map]. rewrite run_cons. apply IH.
  - intros id. unfold submit_call. rewrite step_submit.
    destruct (_ <=? _); [|apply Hdec].
    rewrite decryptedAt_submitted. destruct (decide _); [reflexivity | apply Hdec].
  - unfold submit_call. rewrite step_submit. destruct (_ <=? _); [|exact Hreq].
    destruct (correlations_submitted L s (sub_brightness a) (sub_latitude a)
                (sub_longitude a) (sub_timestamp a) (sub_region a) (sub_now a))
      as [_ ->]. exact Hreq.
Qed.

(** X7: after a sequence of submits, a reveal request for the identity of
    the i-th submission commits and hands the library exactly the four
    ciphertext handles of that submission, in the order brightness,
    latitude, longitude, timestamp, and correlates the returned request
    identity with that observation. *)
Theorem request_dispatches_submitted_handles (L : FHEVM) (subs : list Submission)
    (i : nat) (a : Submission) (reqId : Z) :
  Z.of_nat (length subs) <= MAX_UINT256 ->
  subs !! i = Some a ->
  exists s',
    transact (requestObservationDecryption L (Z.of_nat i + 1) reqId)
      (after_submits L subs) = Committed tt s'
    /\ decryptionRequests s'
       = [(reqId, [FHE_toBytes32 L (sub_brightness a);
                   FHE_toBytes32 L (sub_latitude a);
                   FHE_toBytes32 L (sub_longitude a);
                   FHE_toBytes32 L (sub_timestamp a)])]
    /\ observationOf s' reqId = Z.of_nat i + 1.
Proof.
  intros Hfit Ha. unfold after_submits.
  destruct (run_submits_fresh L subs initial) as [Hdec Hreq];
    [intros id; reflexivity | reflexivity |].
  destruct (run_submits_ok L subs initial) as (_ & _ & _ & Hrec); [cbn; lia|].
  specialize (Hrec i a Ha).
  change (observationCount initial) with 0 in Hrec. rewrite Z.add_0_l in Hrec.
  exists (requested L (run L initial (map submit_call subs)) (Z.of_nat i + 1) reqId).
  rewrite transact_request, Hdec. split; [reflexivity|]. split.
  - unfold requested, handles_of. cbn [decryptionRequests log_event
      set_requestToObservationId log_request]. rewrite Hreq, Hrec. reflexivity.
  - rewrite observationOf_requested.
    destruct (decide (reqId = reqId)); [reflexivity | congruence].
Qed.

Lemma request_dispatches_submitted_handles_witness :
  Z.of_nat (length demo_regions) <= MAX_UINT256
  /\ demo_regions !! 1%nat = Some (mkSubmission 21 22 23 24 "EU-1" 1700000060)
  /\ exists s',
       transact (requestObservationDecryption stubFHE 2 77)
         (after_submits stubFHE demo_regions) = Committed tt s'
       /\ decryptionRequests s' = [(77, [21; 22; 23; 24])]
       /\ observationOf s' 77 = 2.
Proof.
  assert (Hfit : Z.of_nat (length demo_regions) <= MAX_UINT256)
    by (vm_compute; discriminate).
  split; [exact Hfit|]. split; [reflexivity|].
  apply (request_dispatches_submitted_handles stubFHE demo_regions 1
           (mkSubmission 21 22 23 24 "EU-1" 1700000060) 77 Hfit eq_refl).
Defined.

(** X8: request, then fulfill, then read.  For an observation identity
    other than 0 that is not revealed, a reveal request followed by a
    fulfill whose signatures verify and whose cleartexts decode to at
    least four values commits, and [getDecryptedObservation] then returns
    the first four values (the fourth converted to [uint256]) with the
    revealed flag set; values after the fourth are ignored. *)
Theorem reveal_round_trip (L : FHEVM) (s : State) (id reqId : Z)
    (cleartexts proof : bytes) (r0 r1 r2 r3 : Z) (rest : list Z) :
  id <> 0 ->
  isRevealed (decryptedAt s id) = false ->
  FHE_checkSignatures L reqId cleartexts proof = true ->
  abi_decode_floats L cleartexts = Some (r0 :: r1 :: r2 :: r3 :: rest) ->
  exists s1 s2,
    transact (requestObservationDecryption L id reqId) s = Committed tt s1
    /\ transact (decryptObservation L reqId cleartexts proof) s1 = Committed tt s2
    /\ transact (getDecryptedObservation id) s2
       = Committed (mkDecryptedObservation r0 r1 r2 (uint256_of_float r3) true) s2
    /\ events s2 = events s ++ [DecryptionRequested id; ObservationDecrypted id].
Proof.
  intros Hid Hfresh Hsig Hdecode.
  exists (requested L s id reqId),
         (decrypted (requested L s id reqId) id r0 r1 r2 r3).
  assert (Hobs : observationOf (requested L s id reqId) reqId = id).
  { rewrite observationOf_requested.
    destruct (decide (reqId = reqId)); [reflexivity | congruence]. }
  split; [rewrite transact_request, Hfresh; reflexivity|]. split; [|split].
  - rewrite transact_decrypt. cbn zeta. rewrite Hobs.
    destruct (id =? 0) eqn:Hz; [apply Z.eqb_eq in Hz; contradiction|].
    rewrite decryptedAt_requested, Hfresh, Hsig, Hdecode. reflexivity.
  - unfold transact, getDecryptedObservation, bind, read, ret.
    rewrite decryptedAt_decrypted.
    destruct (decide (id = id)); [reflexivity | congruence].
  - unfold decrypted, requested. cbn. rewrite <- app_assoc. reflexivity.
Qed.

Lemma reveal_round_trip_witness :
  1 <> 0
  /\ isRevealed (decryptedAt s_submitted 1) = false
  /\ FHE_checkSignatures stubFHE 77 [x05; x06; x07; x08; x09] demo_proof = true
  /\ abi_decode_floats stubFHE [x05; x06; x07; x08; x09] = Some [5; 6; 7; 8; 9]
  /\ exists s1 s2,
       transact (requestObservationDecryption stubFHE 1 77) s_submitted
         = Committed tt s1
       /\ transact (decryptObservation stubFHE 77 [x05; x06; x07; x08; x09] demo_proof) s1
          = Committed tt s2
       /\ transact (getDecryptedObservation 1) s2
          = Committed (mkDecryptedObservation 5 6 7 (uint256_of_float 8) true) s2.
Proof.
  split; [discriminate|]. split; [reflexivity|]. split; [reflexivity|].
  split; [reflexivity|].
  destruct (reveal_round_trip stubFHE s_submitted 1 77 [x05; x06; x07; x08; x09]
              demo_proof 5 6 7 8 [9])
    as (s1 & s2 & H1 & H2 & H3 & _);
    [discriminate | reflexivity | reflexivity | reflexivity |].
  exists s1, s2. split; [exact H1|]. split; [exact H2 | exact H3].
Defined.

(** X9: [decryptObservation] commits exactly when the request identity is
    correlated with an identity other than 0, that observation is not
    revealed, the signatures verify, and the cleartexts decode to at least
    four values.  Every other call reverts. *)
Theorem fulfill_commits_iff (L : FHEVM) (s : State) (requestId : Z)
    (cleartexts proof : bytes) :
  succeeds (transact (decryptObservation L requestId cleartexts proof) s)
  <-> (observationOf s requestId <> 0
       /\ isRevealed (decryptedAt s (observationOf s requestId)) = false
       /\ FHE_checkSignatures L requestId cleartexts proof = true
       /\ exists r0 r1 r2 r3 rest,
            abi_decode_floats L cleartexts = Some (r0 :: r1 :: r2 :: r3 :: rest)).
Proof.
  rewrite transact_decrypt. cbn zeta. split.
  - intros (u & s' & Hc).
    destruct (observationOf s requestId =? 0) eqn:Hz; [discriminate|].
    destruct (isRevealed (decryptedAt s (observationOf s requestId))); [discriminate|].
    destruct (FHE_checkSignatures L requestId cleartexts proof); [|discriminate].
    cbn in Hc.
    destruct (abi_decode_floats L cleartexts) as [[|r0 [|r1 [|r2 [|r3 rest]]]]|];
      try discriminate Hc.
    repeat split.
    + intros H0. rewrite H0 in Hz. discriminate.
    + exists r0, r1, r2, r3, rest. reflexivity.
  - intros (Hnz & Hfresh & Hsig & r0 & r1 & r2 & r3 & rest & Hdecode).
    destruct (observationOf s requestId =? 0) eqn:Hz;
      [apply Z.eqb_eq in Hz; contradiction|].
    rewrite Hfresh, Hsig, Hdecode. cbn. eexists; eexists; reflexivity.
Qed.

(** X10: a committed [decryptObservation] writes the decrypted record of
    the correlated observation and appends one [ObservationDecrypted]
    event, and nothing else: the count, the encrypted records, the region
    bookkeeping, the correlations, the dispatched requests and the
    decrypted records of all other identities are as before. *)
Theorem fulfill_frames (L : FHEVM) (s s' : State) (requestId : Z)
    (cleartexts proof : bytes) :
  transact (decryptObservation L requestId cleartexts proof) s = Committed tt s' ->
  observationCount s' = observationCount s
  /\ encryptedObservations s' = encryptedObservations s
  /\ encryptedRegionStats s' = encryptedRegionStats s
  /\ regionList s' = regionList s
  /\ requestToObservationId s' = requestToObservationId s
  /\ decryptionRequests s' = decryptionRequests s
  /\ events s' = events s ++ [ObservationDecrypted (observationOf s requestId)]
  /\ forall id, id <> observationOf s requestId ->
       decryptedAt s' id = decryptedAt s id.
Proof.
  rewrite transact_decrypt. cbn zeta.
  destruct (observationOf s requestId =? 0); [discriminate|].
  destruct (isRevealed (decryptedAt s (observationOf s requestId))); [discriminate|].
  destruct (negb (FHE_checkSignatures L requestId cleartexts proof)); [discriminate|].
  destruct (abi_decode_floats L cleartexts) as [[|r0 [|r1 [|r2 [|r3 rest]]]]|];
    try discriminate.
  intros [= <-]. repeat split.
  intros id Hid. rewrite decryptedAt_decrypted.
  destruct (decide _); [congruence | reflexivity].
Qed.

Lemma fulfill_frames_witness :
  transact (decryptObservation stubFHE 77 demo_cleartexts demo_proof) s_pending
    = Committed tt s_revealed
  /\ encryptedObservations s_revealed = encryptedObservations s_pending
  /\ requestToObservationId s_revealed = requestToObservationId s_pending
  /\ events s_revealed = events s_pending ++ [ObservationDecrypted 1].
Proof.
  assert (Hc : transact (decryptObservation stubFHE 77 demo_cleartexts demo_proof)
                 s_pending = Committed tt s_revealed) by (vm_compute; reflexivity).
  split; [exact Hc|].
  destruct (fulfill_frames stubFHE s_pending s_revealed 77 demo_cleartexts
              demo_proof Hc) as (_ & Henc & _ & _ & Hreq & _ & Hev & _).
  split; [exact Henc|]. split; [exact Hreq | exact Hev].
Defined.

Lemma decrypted_zero_reachable L s :
  reachable L s -> decryptedAt s 0 = zeroDecrypted.
Proof.
  revert s. apply (reachable_ind L (fun s => decryptedAt s 0 = zeroDecrypted)).
  - reflexivity.
  - intros s c Hreach IH. pose proof (count_nonneg_reachable L s Hreach) as Hc.
    destruct c as [eb ela elo ets regionCode now | observationId reqId
                  | requestId cleartexts proof | regionCode].
    + rewrite step_submit. destruct (_ <=? _); [|exact IH].
      rewrite decryptedAt_submitted. destruct (decide _); [lia | exact IH].
    + rewrite step_request. destruct (isRevealed _); exact IH.
    + destruct (step_decrypt L s requestId cleartexts proof)
        as [-> | (r0 & r1 & r2 & r3 & Hnz & ->)]; [exact IH|].
      rewrite decryptedAt_decrypted. destruct (decide _); [congruence | exact IH].
    + rewrite step_regional.
      destruct (FHE_isInitialized L (regionStat s regionCode)); exact IH.
Qed.

Lemma step_keeps_correlation L s c requestId :
  ~ hands_out requestId c ->
  observationOf (step L s c) requestId = observationOf s requestId.
Proof.
  intros Hfree.
  destruct c as [eb ela elo ets regionCode now | observationId reqId
                | otherId cleartexts proof | regionCode].
  - rewrite step_submit. destruct (_ <=? _); [|reflexivity].
    unfold observationOf.
    destruct (correlations_submitted L s eb ela elo ets regionCode now) as [-> _].
    reflexivity.
  - rewrite step_request. destruct (isRevealed _); [reflexivity|].
    rewrite observationOf_requested.
    destruct (decide (reqId = requestId)) as [Heq|]; [|reflexivity].
    exfalso. apply Hfree. exact Heq.
  - destruct (step_decrypt L s otherId cleartexts proof)
      as [-> | (r0 & r1 & r2 & r3 & _ & ->)]; reflexivity.
  - rewrite step_regional.
    destruct (FHE_isInitialized L (regionStat s regionCode)); reflexivity.
Qed.

Lemma run_keeps_correlation L requestId calls : forall s,
  Forall (fun c => ~ hands_out requestId c) calls ->
  observationOf (run L s calls) requestId = observationOf s requestId.
Proof.
  induction calls as [|c calls IH]; intros s Hfree; [reflexivity|].
  apply Forall_cons in Hfree as [Hc Hrest].
  rewrite run_cons, IH by exact Hrest. apply step_keeps_correlation. exact Hc.
Qed.

(** X11: identity 0 is the marker of a missing correlation.  In every
    reachable state a reveal request for observation 0 commits, but the
    correlation it stores can never be fulfilled: after any further calls
    in which the library does not hand out the same request identity
    again, every fulfill with that request identity fails with "Invalid
    request". *)
Theorem request_for_zero_never_fulfilled (L : FHEVM) (s : State) (reqId : Z)
    (calls : list Call) :
  reachable L s ->
  Forall (fun c => ~ hands_out reqId c) calls ->
  exists s1,
    transact (requestObservationDecryption L 0 reqId) s = Committed tt s1
    /\ forall cleartexts proof,
         transact (decryptObservation L reqId cleartexts proof) (run L s1 calls)
           = Reverted (RequireFailed "Invalid request").
Proof.
  intros Hreach Hfree. exists (requested L s 0 reqId).
  rewrite transact_request, (decrypted_zero_reachable L s Hreach).
  split; [reflexivity|]. intros cleartexts proof.
  rewrite transact_decrypt. cbn zeta.
  rewrite (run_keeps_correlation L reqId calls _ Hfree), observationOf_requested.
  destruct (decide (reqId = reqId)); [reflexivity | congruence].
Qed.

Lemma request_for_zero_never_fulfilled_witness :
  reachable stubFHE s_submitted
  /\ Forall (fun c => ~ hands_out 77 c)
       [submit_call demo_submission; RequestObservationDecryption 1 78;
        DecryptObservation 78 demo_cleartexts demo_proof]
  /\ exists s1,
       transact (requestObservationDecryption stubFHE 0 77) s_submitted
         = Committed tt s1
       /\ transact (decryptObservation stubFHE 77 demo_cleartexts demo_proof)
            (run stubFHE s1
               [submit_call demo_submission; RequestObservationDecryption 1 78;
                DecryptObservation 78 demo_cleartexts demo_proof])
          = Reverted (RequireFailed "Invalid request").
Proof.
  assert (Hreach : reachable stubFHE s_submitted)
    by (exists [submit_call demo_submission]; reflexivity).
  assert (Hfree : Forall (fun c => ~ hands_out 77 c)
            [submit_call demo_submission; RequestObservationDecryption 1 78;
             DecryptObservation 78 demo_cleartexts demo_proof]).
  { repeat apply Forall_cons_2; try apply Forall_nil_2; cbn; intros H;
      try exact H; discriminate H. }
  split; [exact Hreach|]. split; [exact Hfree|].
  destruct (request_for_zero_never_fulfilled stubFHE s_submitted 77 _ Hreach Hfree)
    as (s1 & Hreq & Hno).
  exists s1. split; [exact Hreq | apply Hno].
Defined.

Lemma decrypt_commit_shape L s s' requestId cleartexts proof :
  transact (decryptObservation L requestId cleartexts proof) s = Committed tt s' ->
  exists r0 r1 r2 r3, s' = decrypted s (observationOf s requestId) r0 r1 r2 r3.
Proof.
  rewrite transact_decrypt. cbn zeta.
  destruct (observationOf s requestId =? 0); [discriminate|].
  destruct (isRevealed (decryptedAt s (observationOf s requestId))); [discriminate|].
  destruct (negb (FHE_checkSignatures L requestId cleartexts proof)); [discriminate|].
  destruct (abi_decode_floats L cleartexts) as [[|r0 [|r1 [|r2 [|r3 rest]]]]|];
    try discriminate.
  intros [= <-]. exists r0, r1, r2, r3. reflexivity.
Qed.

(** X12: of the request identities correlated with an assigned
    observation, at most one is ever fulfilled.  Once a fulfill for the
    observation has committed, then after any further calls a fulfill
    with any request identity correlated, at that time, with the same
    observation fails with "Already decrypted". *)
Theorem concurrent_request_rejected_after_fulfill (L : FHEVM) (s s' : State)
    (requestId otherId : Z) (cleartexts proof : bytes) (calls : list Call) :
  observationOf s requestId <= observationCount s ->
  transact (decryptObservation L requestId cleartexts proof) s = Committed tt s' ->
  observationOf (run L s' calls) otherId = observationOf s requestId ->
  forall cleartexts' proof',
    transact (decryptObservation L otherId cleartexts' proof') (run L s' calls)
      = Reverted (RequireFailed "Already decrypted").
Proof.
  intros Hassigned Hc Hsame cleartexts' proof'.
  destruct (decrypt_commit_verified _ _ _ _ _ _ Hc) as (_ & Hnz & _ & Hrev & _).
  destruct (decrypt_commit_shape _ _ _ _ _ _ Hc) as (r0 & r1 & r2 & r3 & Hshape).
  assert (Hcount : observationOf s requestId <= observationCount s')
    by (rewrite Hshape; exact Hassigned).
  assert (Hstays : forall calls0 s0,
            observationOf s requestId <= observationCount s0 ->
            isRevealed (decryptedAt s0 (observationOf s requestId)) = true ->
            isRevealed (decryptedAt (run L s0 calls0) (observationOf s requestId))
              = true).
  { induction calls0 as [|c calls0 IH]; intros s0 Hle H0; [exact H0|].
    rewrite run_cons. apply IH.
    - pose proof (step_count_mono L s0 c). lia.
    - apply step_keeps_revealed; [lia | exact H0]. }
  rewrite transact_decrypt. cbn zeta. rewrite Hsame.
  destruct (observationOf s requestId =? 0) eqn:Hz;
    [apply Z.eqb_eq in Hz; contradiction|].
  rewrite (Hstays calls s' Hcount Hrev). reflexivity.
Qed.

Lemma concurrent_request_rejected_after_fulfill_witness :
  observationOf (step stubFHE s_pending (RequestObservationDecryption 1 78)) 77
    <= observationCount (step stubFHE s_pending (RequestObservationDecryption 1 78))
  /\ succeeds (transact (decryptObservation stubFHE 77 demo_cleartexts demo_proof)
                 (step stubFHE s_pending (RequestObservationDecryption 1 78)))
  /\ transact (decryptObservation stubFHE 78 demo_cleartexts demo_proof)
       (run stubFHE
          (step stubFHE
             (step stubFHE s_pending (RequestObservationDecryption 1 78))
             (DecryptObservation 77 demo_cleartexts demo_proof))
          [submit_call demo_submission; CalculateRegionalBrightness "EU-1"])
     = Reverted (RequireFailed "Already decrypted").
Proof.
  split; [vm_compute; discriminate|].
  split; [eexists; eexists; vm_compute; reflexivity|].
  apply (concurrent_request_rejected_after_fulfill stubFHE
           (step stubFHE s_pending (RequestObservationDecryption 1 78)) _
           77 78 demo_cleartexts demo_proof
           [submit_call demo_submission; CalculateRegionalBrightness "EU-1"]).
  - vm_compute. discriminate.
  - vm_compute. reflexivity.
  - vm_compute. reflexivity.
Defined.

Lemma decryptions_of_app id log1 log2 :
  decryptions_of id (log1 ++ log2)
  = (decryptions_of id log1 + decryptions_of id log2)%nat.
Proof.
  induction log1 as [|e log1 IH]; [reflexivity|].
  destruct e as [i t | i | i | h]; cbn; try exact IH.
  destruct (decide (i = id)); cbn; rewrite IH; reflexivity.
Qed.

Lemma step_reveal_budget L s c id :
  id <> observationCount s + 1 ->
  (decryptions_of id (events (step L s c))
   + (if isRevealed (decryptedAt (step L s c) id) then 0 else 1)
   = decryptions_of id (events s)
     + (if isRevealed (decryptedAt s id) then 0 else 1))%nat.
Proof.
  intros Hid.
  destruct c as [eb ela elo ets regionCode now | observationId reqId
                | requestId cleartexts proof | regionCode].
  - rewrite step_submit. destruct (_ <=? _); [|reflexivity].
    rewrite events_submitted, decryptions_of_app, decryptedAt_submitted.
    destruct (decide _); [congruence|]. cbn. lia.
  - rewrite step_request. destruct (isRevealed (decryptedAt s observationId));
      [reflexivity|].
    rewrite decryptedAt_requested. unfold requested. cbn [events log_event].
    change (events (set_requestToObservationId _ _ _)) with (events s).
    rewrite decryptions_of_app. cbn. lia.
  - pose proof (transact_decrypt L s requestId cleartexts proof) as Htx.
    cbn zeta in Htx. unfold step, dispatch. rewrite Htx. clear Htx.
    destruct (observationOf s requestId =? 0); [reflexivity|].
    destruct (isRevealed (decryptedAt s (observationOf s requestId))) eqn:Hrev;
      [reflexivity|].
    destruct (negb (FHE_checkSignatures L requestId cleartexts proof));
      [reflexivity|].
    destruct (abi_decode_floats L cleartexts) as [[|r0 [|r1 [|r2 [|r3 rest]]]]|];
      try reflexivity.
    cbn [post_state]. rewrite decryptedAt_decrypted.
    change (events (decrypted s (observationOf s requestId) r0 r1 r2 r3))
      with (events s ++ [ObservationDecrypted (observationOf s requestId)]).
    rewrite decryptions_of_app. cbn.
    destruct (decide (observationOf s requestId = id)) as [<-|Hne].
    + rewrite Hrev. cbn. lia.
    + lia.
  - rewrite step_regional.
    destruct (FHE_isInitialized L (regionStat s regionCode)); [|reflexivity].
    change (decryptedAt (log_event _ s) id) with (decryptedAt s id).
    cbn [events log_event]. rewrite decryptions_of_app. cbn. lia.
Qed.

(** X13: an assigned observation is decrypted at most once.  Over any
    sequence of calls, the [ObservationDecrypted] events for an assigned
    identity grow by exactly one when its revealed flag goes from false to
    true, and never otherwise; for an identity already revealed none is
    ever added. *)
Theorem decrypted_at_most_once (L : FHEVM) (s : State) (calls : list Call) (id : Z) :
  id <= observationCount s ->
  (decryptions_of id (events (run L s calls))
   + (if isRevealed (decryptedAt (run L s calls) id) then 0 else 1)
   = decryptions_of id (events s)
     + (if isRevealed (decryptedAt s id) then 0 else 1))%nat
  /\ (decryptions_of id (events (run L s calls))
      <= decryptions_of id (events s)
         + (if isRevealed (decryptedAt s id) then 0 else 1))%nat.
Proof.
  intros Hid.
  assert (Heq : (decryptions_of id (events (run L s calls))
     + (if isRevealed (decryptedAt (run L s calls) id) then 0 else 1)
     = decryptions_of id (events s)
       + (if isRevealed (decryptedAt s id) then 0 else 1))%nat).
  { revert s Hid. induction calls as [|c calls IH]; intros s Hid; [reflexivity|].
    rewrite run_cons, IH.
    - apply step_reveal_budget. lia.
    - pose proof (step_count_mono L s c). lia. }
  split; [exact Heq | lia].
Qed.

Lemma decrypted_at_most_once_witness :
  1 <= observationCount s_pending
  /\ (decryptions_of 1
        (events (run stubFHE s_pending
                   [DecryptObservation 77 demo_cleartexts demo_proof;
                    RequestObservationDecryption 1 78;
                    DecryptObservation 77 demo_cleartexts demo_proof;
                    DecryptObservation 78 demo_cleartexts demo_proof]))
      <= decryptions_of 1 (events s_pending)
         + (if isRevealed (decryptedAt s_pending 1) then 0 else 1))%nat.
Proof.
  assert (Hid : 1 <= observationCount s_pending) by (vm_compute; discriminate).
  split; [exact Hid|]. apply (decrypted_at_most_once stubFHE s_pending). exact Hid.
Defined.

Lemma step_appends L s c :
  exists more_events more_requests,
    events (step L s c) = events s ++ more_events
    /\ decryptionRequests (step L s c) = decryptionRequests s ++ more_requests
    /\ (length more_events <= 1)%nat
    /\ (length more_requests <= 1)%nat.
Proof.
  assert (Hnone : exists more_events more_requests,
            events s = events s ++ more_events
            /\ decryptionRequests s = decryptionRequests s ++ more_requests
            /\ (length more_events <= 1)%nat /\ (length more_requests <= 1)%nat).
  { exists [], []. rewrite !app_nil_r. repeat split; cbn; lia. }
  destruct c as [eb ela elo ets regionCode now | observationId reqId
                | requestId cleartexts proof | regionCode].
  - rewrite step_submit. destruct (_ <=? _); [|exact Hnone].
    exists [ObservationSubmitted (observationCount s + 1) now], [].
    rewrite events_submitted, app_nil_r.
    destruct (correlations_submitted L s eb ela elo ets regionCode now) as [_ ->].
    repeat split; cbn; lia.
  - rewrite step_request. destruct (isRevealed _); [exact Hnone|].
    exists [DecryptionRequested observationId],
           [(reqId, handles_of L (encryptedAt s observationId))].
    repeat split; cbn; lia.
  - destruct (step_decrypt L s requestId cleartexts proof)
      as [-> | (r0 & r1 & r2 & r3 & _ & ->)]; [exact Hnone|].
    exists [ObservationDecrypted (observationOf s requestId)], [].
    rewrite app_nil_r. repeat split; cbn; lia.
  - rewrite step_regional.
    destruct (FHE_isInitialized L (regionStat s regionCode)); [|exact Hnone].
    exists [PollutionMapUpdated (bytes32ToUint (keccak256 L regionCode))], [].
    rewrite app_nil_r. repeat split; cbn; lia.
Qed.

(** X14: the event log and the list of dispatched requests are
    append-only.  Whatever calls run, what was logged stays a prefix of
    the log, and each call appends at most one event and at most one
    dispatched request. *)
Theorem logs_append_only (L : FHEVM) (s : State) (calls : list Call) :
  exists more_events more_requests,
    events (run L s calls) = events s ++ more_events
    /\ decryptionRequests (run L s calls) = decryptionRequests s ++ more_requests
    /\ (length more_events <= length calls)%nat
    /\ (length more_requests <= length calls)%nat.
Proof.
  revert s. induction calls as [|c calls IH]; intros s.
  - exists [], []. rewrite !app_nil_r. repeat split; cbn; lia.
  - rewrite run_cons.
    destruct (step_appends L s c) as (e1 & q1 & He1 & Hq1 & Hle1 & Hlq1).
    destruct (IH (step L s c)) as (e2 & q2 & He2 & Hq2 & Hle2 & Hlq2).
    exists (e1 ++ e2), (q1 ++ q2).
    rewrite He2, Hq2, He1, Hq1, <- !app_assoc, !length_app.
    repeat split; cbn; lia.
Qed.

Lemma observationOf_initial requestId : observationOf initial requestId = 0.
Proof. unfold observationOf, mload. cbn. rewrite lookup_empty. reflexivity. Qed.

Lemma step_events_mono L s c e : e ∈ events s -> e ∈ events (step L s c).
Proof.
  intros He. destruct (step_appends L s c) as (more & _ & -> & _).
  apply elem_of_app. left. exact He.
Qed.

Lemma step_requests_mono L s c q :
  q ∈ decryptionRequests s -> q ∈ decryptionRequests (step L s c).
Proof.
  intros Hq. destruct (step_appends L s c) as (_ & more & _ & -> & _).
  apply elem_of_app. left. exact Hq.
Qed.

(** X15: in every reachable state, a request identity correlated with an
    observation (other than the marker 0) is one that was handed to the
    library, together with four ciphertext handles. *)
Theorem correlation_was_dispatched (L : FHEVM) (s : State) (requestId : Z) :
  reachable L s ->
  observationOf s requestId <> 0 ->
  exists handles,
    (requestId, handles) ∈ decryptionRequests s /\ length handles = 4%nat.
Proof.
  intros Hreach. revert s Hreach.
  apply (reachable_ind L (fun s => observationOf s requestId <> 0 ->
    exists handles,
      (requestId, handles) ∈ decryptionRequests s /\ length handles = 4%nat)).
  - intros Hnz. rewrite observationOf_initial in Hnz. congruence.
  - intros s c _ IH Hnz.
    assert (Hkeep : observationOf s requestId <> 0 ->
              exists handles, (requestId, handles) ∈ decryptionRequests (step L s c)
                              /\ length handles = 4%nat).
    { intros H. destruct (IH H) as (handles & Hin & Hlen).
      exists handles. split; [apply step_requests_mono; exact Hin | exact Hlen]. }
    destruct c as [eb ela elo ets regionCode now | observationId reqId
                  | cleartextsId cleartexts proof | regionCode].
    + apply Hkeep. rewrite step_submit in Hnz. destruct (_ <=? _); [|exact Hnz].
      unfold observationOf in *.
      destruct (correlations_submitted L s eb ela elo ets regionCode now) as [Heq _].
      rewrite Heq in Hnz. exact Hnz.
    + rewrite step_request in Hnz |- *.
      destruct (isRevealed (decryptedAt s observationId)); [exact (IH Hnz)|].
      rewrite observationOf_requested in Hnz.
      destruct (decide (reqId = requestId)) as [->|Hne].
      * exists (handles_of L (encryptedAt s observationId)).
        split; [|reflexivity]. unfold requested. cbn.
        apply elem_of_app. right. apply list_elem_of_singleton. reflexivity.
      * destruct (IH Hnz) as (handles & Hin & Hlen). exists handles.
        split; [|exact Hlen]. unfold requested. cbn.
        apply elem_of_app. left. exact Hin.
    + apply Hkeep.
      destruct (step_decrypt L s cleartextsId cleartexts proof)
        as [Heq | (r0 & r1 & r2 & r3 & _ & Heq)]; rewrite Heq in Hnz; exact Hnz.
    + apply Hkeep. rewrite step_regional in Hnz.
      destruct (FHE_isInitialized L (regionStat s regionCode)); exact Hnz.
Qed.

Lemma correlation_was_dispatched_witness :
  reachable stubFHE s_revealed
  /\ observationOf s_revealed 77 <> 0
  /\ exists handles,
       (77, handles) ∈ decryptionRequests s_revealed /\ length handles = 4%nat.
Proof.
  assert (Hreach : reachable stubFHE s_revealed).
  { exists [submit_call demo_submission; RequestObservationDecryption 1 77;
            DecryptObservation 77 demo_cleartexts demo_proof]. reflexivity. }
  assert (Hnz : observationOf s_revealed 77 <> 0) by (vm_compute; discriminate).
  split; [exact Hreach|]. split; [exact Hnz|].
  apply (correlation_was_dispatched stubFHE s_revealed 77 Hreach Hnz).
Defined.

Lemma requested_before_correlated L s :
  reachable L s ->
  forall requestId, observationOf s requestId <> 0 ->
    DecryptionRequested (observationOf s requestId) ∈ events s.
Proof.
  revert s. apply (reachable_ind L (fun s => forall requestId,
    observationOf s requestId <> 0 ->
    DecryptionRequested (observationOf s requestId) ∈ events s)).
  - intros requestId Hnz. rewrite observationOf_initial in Hnz. congruence.
  - intros s c _ IH requestId Hnz.
    destruct c as [eb ela elo ets regionCode now | observationId reqId
                  | cleartextsId cleartexts proof | regionCode].
    + assert (Heq : observationOf
                (step L s (SubmitEncryptedObservation eb ela elo ets regionCode now))
                requestId = observationOf s requestId).
      { rewrite step_submit. destruct (_ <=? _); [|reflexivity].
        unfold observationOf.
        destruct (correlations_submitted L s eb ela elo ets regionCode now)
          as [-> _]. reflexivity. }
      rewrite Heq in *. apply step_events_mono. apply IH. exact Hnz.
    + rewrite step_request in Hnz |- *.
      destruct (isRevealed (decryptedAt s observationId)); [exact (IH _ Hnz)|].
      rewrite observationOf_requested in Hnz |- *.
      change (events (requested L s observationId reqId))
        with (events s ++ [DecryptionRequested observationId]).
      apply elem_of_app.
      destruct (decide (reqId = requestId)).
      * right. apply list_elem_of_singleton. reflexivity.
      * left. apply IH. exact Hnz.
    + assert (Heq : observationOf
                (step L s (DecryptObservation cleartextsId cleartexts proof))
                requestId = observationOf s requestId).
      { destruct (step_decrypt L s cleartextsId cleartexts proof)
          as [-> | (r0 & r1 & r2 & r3 & _ & ->)]; reflexivity. }
      rewrite Heq in *. apply step_events_mono. apply IH. exact Hnz.
    + assert (Heq : observationOf (step L s (CalculateRegionalBrightness regionCode))
                requestId = observationOf s requestId).
      { rewrite step_regional.
        destruct (FHE_isInitialized L (regionStat s regionCode)); reflexivity. }
      rewrite Heq in *. apply step_events_mono. apply IH. exact Hnz.
Qed.

(** X16: no observation is revealed without a request.  In every
    reachable state, a decrypted record whose revealed flag is set has
    both a [DecryptionRequested] and an [ObservationDecrypted] event for
    its identity in the log. *)
Theorem revealed_was_requested (L : FHEVM) (s : State) (id : Z) :
  reachable L s ->
  isRevealed (decryptedAt s id) = true ->
  DecryptionRequested id ∈ events s /\ ObservationDecrypted id ∈ events s.
Proof.
  intros Hreach. revert s Hreach.
  apply (reachable_ind L (fun s => isRevealed (decryptedAt s id) = true ->
    DecryptionRequested id ∈ events s /\ ObservationDecrypted id ∈ events s)).
  - intros Hrev. discriminate Hrev.
  - intros s c Hreach IH Hrev.
    assert (Hkeep : isRevealed (decryptedAt s id) = true ->
              DecryptionRequested id ∈ events (step L s c)
              /\ ObservationDecrypted id ∈ events (step L s c)).
    { intros H. destruct (IH H). split; apply step_events_mono; assumption. }
    destruct c as [eb ela elo ets regionCode now | observationId reqId
                  | requestId cleartexts proof | regionCode].
    + apply Hkeep. rewrite step_submit in Hrev. destruct (_ <=? _); [|exact Hrev].
      rewrite decryptedAt_submitted in Hrev.
      destruct (decide _); [discriminate Hrev | exact Hrev].
    + apply Hkeep. rewrite step_request in Hrev.
      destruct (isRevealed (decryptedAt s observationId)); exact Hrev.
    + destruct (step_decrypt L s requestId cleartexts proof)
        as [Heq | (r0 & r1 & r2 & r3 & Hnz & Heq)].
      * apply Hkeep. rewrite Heq in Hrev. exact Hrev.
      * rewrite Heq in Hrev. rewrite decryptedAt_decrypted in Hrev.
        destruct (decide (observationOf s requestId = id)) as [Hid|Hne].
        -- rewrite Heq.
           change (events (decrypted s (observationOf s requestId) r0 r1 r2 r3))
             with (events s ++ [ObservationDecrypted (observationOf s requestId)]).
           rewrite Hid. split; apply elem_of_app.
           ++ left. rewrite <- Hid.
              apply (requested_before_correlated L s Hreach). exact Hnz.
           ++ right. apply list_elem_of_singleton. reflexivity.
        -- apply Hkeep. exact Hrev.
    + apply Hkeep. rewrite step_regional in Hrev.
      destruct (FHE_isInitialized L (regionStat s regionCode)); exact Hrev.
Qed.

Lemma revealed_was_requested_witness :
  reachable stubFHE s_revealed
  /\ isRevealed (decryptedAt s_revealed 1) = true
  /\ DecryptionRequested 1 ∈ events s_revealed
  /\ ObservationDecrypted 1 ∈ events s_revealed.
Proof.
  assert (Hreach : reachable stubFHE s_revealed).
  { exists [submit_call demo_submission; RequestObservationDecryption 1 77;
            DecryptObservation 77 demo_cleartexts demo_proof]. reflexivity. }
  split; [exact Hreach|]. split; [reflexivity|].
  apply (revealed_was_requested stubFHE s_revealed 1 Hreach). reflexivity.
Defined.

(** ** The pure entry points *)

(** The summation loop visits the array in index order and cannot read
    outside it. *)
Lemma aggregate_loop_fold A values : forall fuel i sum s,
  (i + fuel <= length values)%nat ->
  aggregate_loop A values fuel i sum s
  = (s, Done (fold_left (FHE_add A) (take fuel (drop i values)) sum)).
Proof.
  induction fuel as [|fuel IH]; intros i sum s Hle; [reflexivity|].
  destruct (values !! i) as [v|] eqn:Hv.
  - cbn [aggregate_loop]. unfold bind, index. rewrite Hv. unfold ret at 1.
    rewrite IH by lia. rewrite (drop_S _ _ _ Hv). reflexivity.
  - apply lookup_ge_None in Hv. lia.
Qed.

(** X17: [aggregateObservations] fails with "No observations" on the empty
    array and on no other input.  On a non-empty array it adds the values
    in index order onto the encrypted zero and divides by the encrypted
    length (cast to 32 bits); it never touches the storage. *)
Theorem aggregate_outcome (L : FHEVM) (A : FHEArith) (values : list Z) (s : State) :
  transact (aggregateObservations L A values) s
  = match values with
    | [] => Reverted (RequireFailed "No observations")
    | _ :: _ =>
        Committed
          (FHE_div L (fold_left (FHE_add A) values (FHE_asEuint32 L 0))
             (FHE_asEuint32 L (uint32 (Z.of_nat (length values)))))
          s
    end.
Proof.
  unfold transact, aggregateObservations, bind, require.
  destruct values as [|v values]; [reflexivity|].
  assert (Hpos : (0 <? Z.of_nat (length (v :: values))) = true)
    by (apply Z.ltb_lt; cbn [length]; lia).
  rewrite Hpos. unfold ret at 1.
  rewrite aggregate_loop_fold by lia.
  rewrite drop_0, firstn_all. reflexivity.
Qed.

Lemma fold_add_plain A (plain : Z -> Z) :
  (forall a b, plain (FHE_add A a b) = (plain a + plain b) mod 2 ^ 32) ->
  forall values acc,
    plain (fold_left (FHE_add A) values acc) mod 2 ^ 32
    = (plain acc + foldr Z.add 0 (map plain values)) mod 2 ^ 32.
Proof.
  intros Hadd. induction values as [|v values IH]; intros acc.
  - cbn. rewrite Z.add_0_r. reflexivity.
  - cbn [fold_left map foldr]. rewrite IH, Hadd, Zplus_mod_idemp_l.
    f_equal. lia.
Qed.

Lemma fold_add_plain_range A (plain : Z -> Z) :
  (forall a b, plain (FHE_add A a b) = (plain a + plain b) mod 2 ^ 32) ->
  forall values acc, values <> [] ->
    0 <= plain (fold_left (FHE_add A) values acc) < 2 ^ 32.
Proof.
  intros Hadd values acc Hne.
  destruct (exists_last Hne) as (front & v & ->).
  rewrite fold_left_app. cbn. rewrite Hadd. apply Z.mod_pos_bound. lia.
Qed.

(** X18: with a library whose addition wraps at 32 bits and whose
    encryption and division act on the plaintexts, the result of
    [aggregateObservations] on a non-empty array of fewer than 2^32 values
    decrypts to the wrapped sum of the plaintexts divided by their
    number. *)
Theorem aggregate_is_wrapping_mean (L : FHEVM) (A : FHEArith) (plain : Z -> Z)
    (values : list Z) (s : State) :
  (forall v, 0 <= v < 2 ^ 32 -> plain (FHE_asEuint32 L v) = v) ->
  (forall a b, plain (FHE_add A a b) = (plain a + plain b) mod 2 ^ 32) ->
  (forall a b, plain (FHE_div L a b) = Z.div (plain a) (plain b)) ->
  values <> [] ->
  Z.of_nat (length values) < 2 ^ 32 ->
  exists r,
    transact (aggregateObservations L A values) s = Committed r s
    /\ plain r
       = Z.div (foldr Z.add 0 (map plain values) mod 2 ^ 32)
               (Z.of_nat (length values)).
Proof.
  intros Henc Hadd Hdiv Hne Hlen. rewrite aggregate_outcome.
  destruct values as [|v values]; [congruence|].
  eexists. split; [reflexivity|].
  rewrite Hdiv, Henc.
  - f_equal.
    + rewrite <- (Z.mod_small (plain (fold_left _ _ _)) (2 ^ 32))
        by (apply (fold_add_plain_range A plain Hadd); discriminate).
      rewrite (fold_add_plain A plain Hadd), Henc by lia. reflexivity.
    + unfold uint32. apply Z.mod_small. lia.
  - unfold uint32. apply Z.mod_pos_bound. lia.
Qed.

Lemma aggregate_is_wrapping_mean_witness :
  (forall v, 0 <= v < 2 ^ 32 -> stub_plain (FHE_asEuint32 stubFHE v) = v)
  /\ (forall a b, stub_plain (FHE_add stubArith a b)
                  = (stub_plain a + stub_plain b) mod 2 ^ 32)
  /\ (forall a b, stub_plain (FHE_div stubFHE a b) = Z.div (stub_plain a) (stub_plain b))
  /\ exists r,
       transact (aggregateObservations stubFHE stubArith [11; 21; 32]) initial
         = Committed r initial
       /\ stub_plain r = 20.
Proof.
  assert (Henc : forall v, 0 <= v < 2 ^ 32 -> stub_plain (FHE_asEuint32 stubFHE v) = v)
    by (intros v _; unfold stub_plain; cbn; lia).
  assert (Hadd : forall a b, stub_plain (FHE_add stubArith a b)
                             = (stub_plain a + stub_plain b) mod 2 ^ 32)
    by (intros a b; unfold stub_plain; cbn; lia).
  assert (Hdiv : forall a b, stub_plain (FHE_div stubFHE a b)
                             = Z.div (stub_plain a) (stub_plain b))
    by (intros a b; unfold stub_plain; cbn; lia).
  split; [exact Henc|]. split; [exact Hadd|]. split; [exact Hdiv|].
  destruct (aggregate_is_wrapping_mean stubFHE stubArith stub_plain [11; 21; 32]
              initial Henc Hadd Hdiv) as (r & Htx & Hplain);
    [discriminate | vm_compute; reflexivity |].
  exists r. split; [exact Htx|]. rewrite Hplain. vm_compute. reflexivity.
Defined.

(** The lookup loop returns the first listed code with the given hash, and
    reaches the final revert only when no listed code has it; its indexed
    reads stay inside the list. *)
Lemma getRegionFromHash_loop_outcome L hash s : forall fuel i,
  (i + fuel = length (regionList s))%nat ->
  (forall j c, (j < i)%nat -> regionList s !! j = Some c ->
     bytes32ToUint (keccak256 L c) <> hash) ->
  (exists k code,
     regionList s !! k = Some code
     /\ bytes32ToUint (keccak256 L code) = hash
     /\ (forall j c, (j < k)%nat -> regionList s !! j = Some c ->
           bytes32ToUint (keccak256 L c) <> hash)
     /\ getRegionFromHash_loop L hash fuel i s = (s, Done code))
  \/ ((forall c, c ∈ regionList s -> bytes32ToUint (keccak256 L c) <> hash)
      /\ getRegionFromHash_loop L hash fuel i s
         = (s, Revert (RequireFailed "Region not found"))).
Proof.
  induction fuel as [|fuel IH]; intros i Hlen Hbefore.
  - right. split; [|reflexivity].
    intros c Hin. apply list_elem_of_lookup in Hin as [j Hj].
    apply (Hbefore j c); [|exact Hj]. apply lookup_lt_Some in Hj. lia.
  - destruct (regionList s !! i) as [code|] eqn:Hi;
      [|apply lookup_ge_None in Hi; lia].
    cbn [getRegionFromHash_loop]. unfold bind, read. rewrite Hi.
    destruct (bytes32ToUint (keccak256 L code) =? hash) eqn:Hh.
    + left. exists i, code. apply Z.eqb_eq in Hh. repeat split; assumption.
    + apply Z.eqb_neq in Hh. apply IH; [lia|].
      intros j c Hj Hc. destruct (decide (j = i)) as [->|Hne].
      * rewrite Hi in Hc. injection Hc as <-. exact Hh.
      * apply (Hbefore j c); [lia | exact Hc].
Qed.

(** X19: [getRegionFromHash] returns the first code of the registration
    list whose hash is the given one, and fails with "Region not found"
    exactly when no listed code has that hash; it reads no index outside
    the list and leaves the storage untouched. *)
Theorem getRegionFromHash_first_match (L : FHEVM) (s : State) (hash : Z) :
  (exists k code,
     regionList s !! k = Some code
     /\ bytes32ToUint (keccak256 L code) = hash
     /\ (forall j c, (j < k)%nat -> regionList s !! j = Some c ->
           bytes32ToUint (keccak256 L c) <> hash)
     /\ transact (getRegionFromHash L hash) s = Committed code s)
  \/ ((forall c, c ∈ regionList s -> bytes32ToUint (keccak256 L c) <> hash)
      /\ transact (getRegionFromHash L hash) s
         = Reverted (RequireFailed "Region not found")).
Proof.
  unfold transact, getRegionFromHash, bind, read.
  destruct (getRegionFromHash_loop_outcome L hash s (length (regionList s)) 0)
    as [(k & code & Hk & Hh & Hfirst & Hrun) | (Hnone & Hrun)];
    [lia | intros j c Hj; lia | |]; rewrite Hrun.
  - left. exists k, code. repeat split; assumption.
  - right. split; [exact Hnone | reflexivity].
Qed.

(** X20: the hash that [calculateRegionalBrightness] puts in its
    [PollutionMapUpdated] event can be mapped back.  In a reachable state,
    after a committed call for a region code, [getRegionFromHash] on the
    emitted hash succeeds with a registered code of the same hash; it is
    the very code when no other registered code shares its hash.  (The
    library is taken to report the unset handle as not initialized and the
    encrypted zero as initialized.) *)
Theorem region_hash_round_trip (L : FHEVM) (s s' : State) (regionCode : string)
    (average : Z) :
  FHE_isInitialized L 0 = false ->
  FHE_isInitialized L (FHE_asEuint32 L 0) = true ->
  reachable L s ->
  transact (calculateRegionalBrightness L regionCode) s = Committed average s' ->
  events s' = events s
              ++ [PollutionMapUpdated (bytes32ToUint (keccak256 L regionCode))]
  /\ exists code,
       transact (getRegionFromHash L (bytes32ToUint (keccak256 L regionCode))) s'
         = Committed code s'
       /\ code ∈ regionList s'
       /\ keccak256 L code = keccak256 L regionCode
       /\ ((forall c, c ∈ regionList s' ->
              keccak256 L c = keccak256 L regionCode -> c = regionCode) ->
           code = regionCode).
Proof.
  intros Hunset Hzero Hreach Htx.
  pose proof (regions_reachable L Hunset Hzero s Hreach) as Hc.
  rewrite transact_regional, (initialized_iff_listed L Hunset Hzero s regionCode Hc)
    in Htx.
  destruct (decide (regionCode ∈ regionList s)) as [Hin | Hout];
    [|rewrite bool_decide_eq_false_2 in Htx by exact Hout; discriminate Htx].
  rewrite bool_decide_eq_true_2 in Htx by exact Hin. injection Htx as _ <-.
  split; [reflexivity|].
  set (s' := log_event
               (PollutionMapUpdated (bytes32ToUint (keccak256 L regionCode))) s).
  destruct (getRegionFromHash_loop_outcome L
              (bytes32ToUint (keccak256 L regionCode)) s'
              (length (regionList s')) 0)
    as [(k & code & Hk & Hh & _ & Hrun) | (Hnone & _)];
    [lia | intros j c Hj; lia | |].
  - exists code. split.
    { unfold transact, getRegionFromHash, bind, read. rewrite Hrun. reflexivity. }
    assert (Hlisted : code ∈ regionList
              (log_event (PollutionMapUpdated (bytes32ToUint (keccak256 L regionCode))) s))
      by (apply list_elem_of_lookup; exists k; exact Hk).
    split; [exact Hlisted|]. split; [exact Hh|].
    intros Hinj. apply Hinj; [exact Hlisted | exact Hh].
  - exfalso. apply (Hnone regionCode); [exact Hin | reflexivity].
Qed.

Lemma region_hash_round_trip_witness :
  FHE_isInitialized stubFHE 0 = false
  /\ FHE_isInitialized stubFHE (FHE_asEuint32 stubFHE 0) = true
  /\ reachable stubFHE s_submitted
  /\ transact (calculateRegionalBrightness stubFHE "EU-1") s_submitted
     = Committed 1 (step stubFHE s_submitted (CalculateRegionalBrightness "EU-1"))
  /\ transact (getRegionFromHash stubFHE (bytes32ToUint (keccak256 stubFHE "EU-1")))
       (step stubFHE s_submitted (CalculateRegionalBrightness "EU-1"))
     = Committed "EU-1"%string
         (step stubFHE s_submitted (CalculateRegionalBrightness "EU-1")).
Proof.
  assert (Hreach : reachable stubFHE s_submitted)
    by (exists [submit_call demo_submission]; reflexivity).
  assert (Htx : transact (calculateRegionalBrightness stubFHE "EU-1") s_submitted
                = Committed 1 (step stubFHE s_submitted
                                 (CalculateRegionalBrightness "EU-1")))
    by (vm_compute; reflexivity).
  split; [reflexivity|]. split; [reflexivity|]. split; [exact Hreach|].
  split; [exact Htx|].
  destruct (region_hash_round_trip stubFHE s_submitted _ "EU-1" 1 eq_refl eq_refl
              Hreach Htx) as (_ & code & Hget & _ & _ & Hsame).
  rewrite Hget. f_equal. apply Hsame.
  intros c Hc _. vm_compute in Hc.
  apply list_elem_of_singleton in Hc. exact Hc.
Defined.

(** With colliding hashes the lookup answers with the earlier
    registration: the pass-through instance hashes a code to its length,
    and the hash of "AS-2" is mapped back to "EU-1". *)
Example region_hash_collision :
  transact (getRegionFromHash stubFHE (bytes32ToUint (keccak256 stubFHE "AS-2")))
    (after_submits stubFHE demo_regions)
  = Committed "EU-1"%string (after_submits stubFHE demo_regions).
Proof. vm_compute. reflexivity. Qed.

(** The two comparisons are the same call of [FHE.gt]; neither can revert
    or touch the storage. *)
Lemma comparisons_are_pure (A : FHEArith) (a b : Z) (s : State) :
  transact (compareBrightness A a b) s = Committed (FHE_gt A a b) s
  /\ transact (checkPollutionThreshold A a b) s
     = transact (compareBrightness A a b) s.
Proof. split; reflexivity. Qed.
